(** * The Intiface client of claudejob: a shallow embedding

    Source: the class [IntifaceState] (a buttplug.io client over a raw
    WebSocket) with its interfaces [IntifaceDevice] and [DeviceMessage].

    The class is asynchronous JavaScript: its methods are programs over the
    fields of [this] and over the runtime (promises, sockets, timers, the
    console, the clock).  A method is embedded as a tree of those operations
    ([Async]); [exec] runs a tree up to its first [await]; the event loop
    ([Loop], [step]) resumes suspended trees when their promise settles and
    delivers socket, timer and call events. *)

From Stdlib Require Import ZArith QArith Qminmax Lqa String List Bool Lia.
From stdpp Require Import base option list gmap strings pretty.

Set Warnings "-register-all".
Local Open Scope Z_scope.
Local Open Scope string_scope.
Local Open Scope list_scope.

(** ** Values *)

(** What [JSON.parse] returns.  An object is the list of its own properties
    in [Object.entries] order (keys are distinct in a parsed object); numbers
    are kept as exact rationals, the rounding to a double is not modelled. *)
Inductive JSON : Type :=
| JNull
| JBool (b : bool)
| JNum (q : Q)
| JStr (s : string)
| JArr (items : list JSON)
| JObj (entries : list (string * JSON)).

(** A JavaScript value that may be [undefined]. *)
Definition Value : Type := option JSON.

(** [new Error(message)] and the runtime's own errors, one constructor per
    message in the source. *)
Inductive Error : Type :=
| SyntaxError
| TypeError
| NotConnected
| UrlNotSet
| ConnectionTimeout
| WebSocketError
| DeviceNotFound (deviceIndex : Z)
| NoVibration (deviceIndex : Z)
| ServerError (message : Value).

(** Promises, sockets and timers are named by their number of creation. *)
Abbreviation promise := nat (only parsing).
Abbreviation socket := nat (only parsing).
Abbreviation timer := nat (only parsing).

(** How a promise ends. *)
Inductive Outcome : Type :=
| Fulfilled (v : Value)
| Rejected (e : Error).

(** [JSON.parse] belongs to the runtime.  A text frame is kept as what
    [JSON.parse] makes of it: a value, or a [SyntaxError]. *)
Inductive text : Type :=
| NotJSON (raw : string)
| JSONText (j : JSON).

Definition JSON_parse (data : text) : Error + JSON :=
  match data with
  | NotJSON _ => inl SyntaxError
  | JSONText j => inr j
  end.

(** A number used where an integer is meant (a Map key, an index). *)
Definition Q_as_Z (q : Q) : option Z :=
  if Z.eqb (Qnum q mod Zpos (Qden q)) 0 then Some (Qnum q / Zpos (Qden q)) else None.

Definition num (z : Z) : JSON := JNum (inject_Z z).

(** [v.key]: [undefined] when there is no such property, a [TypeError] on
    [null]. *)
Fixpoint assoc (key : string) (entries : list (string * JSON)) : Value :=
  match entries with
  | [] => None
  | (k, v) :: rest => if String.eqb k key then Some v else assoc key rest
  end.

Definition prop (v : JSON) (key : string) : Error + Value :=
  match v with
  | JNull => inl TypeError
  | JObj entries => inr (assoc key entries)
  | _ => inr None
  end.

(** [for (const x of v)]: the elements of an array, the characters of a
    string, a [TypeError] for anything else. *)
Fixpoint chars (s : string) : list JSON :=
  match s with
  | EmptyString => []
  | String c rest => JStr (String c EmptyString) :: chars rest
  end.

Definition iterate (v : Value) : Error + list JSON :=
  match v with
  | Some (JArr items) => inr items
  | Some (JStr s) => inr (chars s)
  | _ => inl TypeError
  end.

(** [Object.entries(v)[0]]: the first own property; [None] is [undefined]. *)
Definition first_entry (v : JSON) : Error + option (string * JSON) :=
  match v with
  | JNull => inl TypeError
  | JObj entries => inr (head entries)
  | JArr items => inr ((fun x => ("0", x)) <$> head items)
  | JStr s => inr ((fun x => ("0", x)) <$> head (chars s))
  | JBool _ | JNum _ => inr None
  end.

(** ** The interfaces [DeviceMessage] and [IntifaceDevice] *)

Module Scalar.
Record t : Type := { StepCount : Z; ActuatorType : string }.
End Scalar.

Module Motor.
Record t : Type := { StepCount : Z }.
End Motor.

Record DeviceMessages : Type := {
  ScalarCmd : option (list Scalar.t);
  RotateCmd : option (list Motor.t);
  LinearCmd : option (list Motor.t)
}.

Record DeviceMessage : Type := {
  DeviceIndex : Z;
  DeviceName : string;
  DeviceMessages_ : DeviceMessages
}.

Record MotorSpec : Type := { motors : nat; steps : list Z }.

Module Cap.
Record t : Type := {
  vibrate : option MotorSpec;
  rotate : option MotorSpec;
  linear : option MotorSpec
}.
End Cap.

Record IntifaceDevice : Type := {
  index : Z;
  name : string;
  capabilities : Cap.t
}.

(** ** The fields of [IntifaceState] *)

Definition DEFAULT_STRENGTH : Q := 15 # 100.

Record IntifaceState : Type := {
  ws : option socket;
  devices : gmap Z IntifaceDevice;
  messageId : Z;
  pendingMessages : gmap Z promise;
  connectionPromise : option promise;
  wsUrl : option string;
  active : bool;
  device : Z;
  strength : Q;
  since : option N;          (* an ISO timestamp in the source: here the clock reading *)
  lastWorkingCount : Z
}.

(** The constructor. *)
Definition new_IntifaceState (url : string) : IntifaceState := {|
  ws := None;
  devices := ∅;
  messageId := 1;
  pendingMessages := ∅;
  connectionPromise := None;
  wsUrl := Some url;
  active := false;
  device := 0;
  strength := DEFAULT_STRENGTH;
  since := None;
  lastWorkingCount := 0
|}.

(** Field assignments [this.f = v]. *)
Definition set_ws (v : option socket) (o : IntifaceState) : IntifaceState :=
  {| ws := v; devices := devices o; messageId := messageId o;
     pendingMessages := pendingMessages o; connectionPromise := connectionPromise o;
     wsUrl := wsUrl o; active := active o; device := device o;
     strength := strength o; since := since o; lastWorkingCount := lastWorkingCount o |}.

Definition set_devices (v : gmap Z IntifaceDevice) (o : IntifaceState) : IntifaceState :=
  {| ws := ws o; devices := v; messageId := messageId o;
     pendingMessages := pendingMessages o; connectionPromise := connectionPromise o;
     wsUrl := wsUrl o; active := active o; device := device o;
     strength := strength o; since := since o; lastWorkingCount := lastWorkingCount o |}.

Definition set_messageId (v : Z) (o : IntifaceState) : IntifaceState :=
  {| ws := ws o; devices := devices o; messageId := v;
     pendingMessages := pendingMessages o; connectionPromise := connectionPromise o;
     wsUrl := wsUrl o; active := active o; device := device o;
     strength := strength o; since := since o; lastWorkingCount := lastWorkingCount o |}.

Definition set_pendingMessages (v : gmap Z promise) (o : IntifaceState) : IntifaceState :=
  {| ws := ws o; devices := devices o; messageId := messageId o;
     pendingMessages := v; connectionPromise := connectionPromise o;
     wsUrl := wsUrl o; active := active o; device := device o;
     strength := strength o; since := since o; lastWorkingCount := lastWorkingCount o |}.

Definition set_connectionPromise (v : option promise) (o : IntifaceState) : IntifaceState :=
  {| ws := ws o; devices := devices o; messageId := messageId o;
     pendingMessages := pendingMessages o; connectionPromise := v;
     wsUrl := wsUrl o; active := active o; device := device o;
     strength := strength o; since := since o; lastWorkingCount := lastWorkingCount o |}.

Definition set_presence (a : bool) (d : Z) (s : Q) (t : option N) (o : IntifaceState)
  : IntifaceState :=
  {| ws := ws o; devices := devices o; messageId := messageId o;
     pendingMessages := pendingMessages o; connectionPromise := connectionPromise o;
     wsUrl := wsUrl o; active := a; device := d;
     strength := s; since := t; lastWorkingCount := lastWorkingCount o |}.

Definition set_lastWorkingCount (v : Z) (o : IntifaceState) : IntifaceState :=
  {| ws := ws o; devices := devices o; messageId := messageId o;
     pendingMessages := pendingMessages o; connectionPromise := connectionPromise o;
     wsUrl := wsUrl o; active := active o; device := device o;
     strength := strength o; since := since o; lastWorkingCount := v |}.

(** ** The runtime's objects *)

(** [WebSocket.readyState]. *)
Inductive ReadyState : Type := CONNECTING | OPEN | CLOSING | CLOSED.

Definition is_OPEN (st : ReadyState) : bool :=
  match st with OPEN => true | _ => false end.

(** The two closures the source hands to [setTimeout]: the connect timeout
    of the attempt with promise [p], and the [resolve] of a sleep. *)
Inductive Callback : Type :=
| ConnectTimeout (p : promise)
| Wake (p : promise).

(** The console lines of the source. *)
Inductive LogLine : Type :=
| log_StartingVibration
| log_StoppingVibration
| error_FailedToControl (err : Error)
| log_StartingPresence (device : Z) (strength : Q)
| log_StoppingPresence (device : Z)
| log_DeviceAdded (name : string) (index : Z)
| log_DeviceRemoved (name : string) (index : Z)
| log_DeviceFound (name : string) (index : Z)
| log_ScanningFinished
| error_FailedToParse (err : Error)
| log_Connecting (url : string)
| error_Constructor (err : Error)
| log_WebSocketConnected
| log_HandshakeComplete
| log_StartedScanning
| error_WebSocket
| log_Disconnected
| error_Unhandled (err : Error).

(** ** Asynchronous programs *)

(** A method body: reads and assignments of the fields of [this], calls
    into the runtime, [throw], and [await].  [Await p k] suspends until [p]
    settles and goes on with [k]. *)
Inductive Async (A : Type) : Type :=
| Ret (a : A)
| Throw (e : Error)
| Read (k : IntifaceState -> Async A)
| Assign (f : IntifaceState -> IntifaceState) (k : Async A)
| NewPromise (k : promise -> Async A)
| Settle (p : promise) (o : Outcome) (k : Async A)
| Await (p : promise) (k : Outcome -> Async A)
| NewWebSocket (url : string) (k : Error + socket -> Async A)
| GetReadyState (s : socket) (k : ReadyState -> Async A)
| WsSend (s : socket) (frame : JSON) (k : Async A)
| WsClose (s : socket) (k : Async A)
| Listen (s : socket) (timeout : timer) (p : promise) (k : Async A)
| SetTimeout (cb : Callback) (ms : N) (k : timer -> Async A)
| ClearTimeout (t : timer) (k : Async A)
| Console (line : LogLine) (k : Async A)
| DateNow (k : N -> Async A).

Arguments Ret {A} a.
Arguments Throw {A} e.
Arguments Read {A} k.
Arguments Assign {A} f k.
Arguments NewPromise {A} k.
Arguments Settle {A} p o k.
Arguments Await {A} p k.
Arguments NewWebSocket {A} url k.
Arguments GetReadyState {A} s k.
Arguments WsSend {A} s frame k.
Arguments WsClose {A} s k.
Arguments Listen {A} s timeout p k.
Arguments SetTimeout {A} cb ms k.
Arguments ClearTimeout {A} t k.
Arguments Console {A} line k.
Arguments DateNow {A} k.

(** Sequencing: [bind m f] is [m] followed by [f] on its result. *)
Fixpoint bind {A B : Type} (m : Async A) (f : A -> Async B) : Async B :=
  match m with
  | Ret a => f a
  | Throw e => Throw e
  | Read k => Read (fun o => bind (k o) f)
  | Assign g k => Assign g (bind k f)
  | NewPromise k => NewPromise (fun p => bind (k p) f)
  | Settle p o k => Settle p o (bind k f)
  | Await p k => Await p (fun o => bind (k o) f)
  | NewWebSocket url k => NewWebSocket url (fun r => bind (k r) f)
  | GetReadyState s k => GetReadyState s (fun r => bind (k r) f)
  | WsSend s frame k => WsSend s frame (bind k f)
  | WsClose s k => WsClose s (bind k f)
  | Listen s t p k => Listen s t p (bind k f)
  | SetTimeout cb ms k => SetTimeout cb ms (fun t => bind (k t) f)
  | ClearTimeout t k => ClearTimeout t (bind k f)
  | Console line k => Console line (bind k f)
  | DateNow k => DateNow (fun t => bind (k t) f)
  end.

(** [try { m } catch (err) { h err }]. *)
Fixpoint try_catch {A : Type} (m : Async A) (h : Error -> Async A) : Async A :=
  match m with
  | Ret a => Ret a
  | Throw e => h e
  | Read k => Read (fun o => try_catch (k o) h)
  | Assign g k => Assign g (try_catch k h)
  | NewPromise k => NewPromise (fun p => try_catch (k p) h)
  | Settle p o k => Settle p o (try_catch k h)
  | Await p k => Await p (fun o => try_catch (k o) h)
  | NewWebSocket url k => NewWebSocket url (fun r => try_catch (k r) h)
  | GetReadyState s k => GetReadyState s (fun r => try_catch (k r) h)
  | WsSend s frame k => WsSend s frame (try_catch k h)
  | WsClose s k => WsClose s (try_catch k h)
  | Listen s t p k => Listen s t p (try_catch k h)
  | SetTimeout cb ms k => SetTimeout cb ms (fun t => try_catch (k t) h)
  | ClearTimeout t k => ClearTimeout t (try_catch k h)
  | Console line k => Console line (try_catch k h)
  | DateNow k => DateNow (fun t => try_catch (k t) h)
  end.

#[global] Instance Async_ret : MRet Async := fun A a => Ret a.
#[global] Instance Async_bind : MBind Async := fun A B f m => bind m f.

(** The operations as programs of their own. *)
Definition read : Async IntifaceState := Read Ret.
Definition assign (f : IntifaceState -> IntifaceState) : Async unit := Assign f (Ret tt).
Definition new_promise : Async promise := NewPromise Ret.
Definition resolve (p : promise) (v : Value) : Async unit := Settle p (Fulfilled v) (Ret tt).
Definition reject (p : promise) (e : Error) : Async unit := Settle p (Rejected e) (Ret tt).
Definition new_WebSocket (url : string) : Async (Error + socket) := NewWebSocket url Ret.
Definition ready_state (s : socket) : Async ReadyState := GetReadyState s Ret.
Definition ws_send (s : socket) (frame : JSON) : Async unit := WsSend s frame (Ret tt).
Definition ws_close (s : socket) : Async unit := WsClose s (Ret tt).
Definition listen (s : socket) (t : timer) (p : promise) : Async unit := Listen s t p (Ret tt).
Definition setTimeout (cb : Callback) (ms : N) : Async timer := SetTimeout cb ms Ret.
Definition clearTimeout (t : timer) : Async unit := ClearTimeout t (Ret tt).
Definition console (line : LogLine) : Async unit := Console line (Ret tt).
Definition date_now : Async N := DateNow Ret.

(** [await p]: the value of [p], or its rejection thrown. *)
Definition await (p : promise) : Async Value :=
  Await p (fun o => match o with Fulfilled v => Ret v | Rejected e => Throw e end).

(** A synchronous step that may throw. *)
Definition lift {A : Type} (r : Error + A) : Async A :=
  match r with inl e => Throw e | inr a => Ret a end.

(** ** The runtime *)

Record Socket : Type := {
  readyState : ReadyState;
  sent : list JSON;                      (* the frames given to [send], before [JSON.stringify] *)
  listeners : option (timer * promise);  (* what the four handlers of [connect] close over *)
  gone : bool                            (* the close event was delivered *)
}.

Record Timer : Type := { due : N; callback : Callback; armed : bool }.

Record Runtime : Type := {
  this : IntifaceState;
  promises : list (option Outcome);   (* [None]: pending *)
  settled : list promise;             (* settled since the last microtask checkpoint, in order *)
  sockets : list Socket;
  timers : list Timer;
  clock : N;                          (* milliseconds *)
  output : list LogLine;              (* the console *)
  url_ok : string -> bool             (* the URLs [new WebSocket] accepts *)
}.

Definition with_this (f : IntifaceState -> IntifaceState) (r : Runtime) : Runtime :=
  {| this := f (this r); promises := promises r; settled := settled r;
     sockets := sockets r; timers := timers r; clock := clock r;
     output := output r; url_ok := url_ok r |}.

Definition with_promises (ps : list (option Outcome)) (q : list promise) (r : Runtime) : Runtime :=
  {| this := this r; promises := ps; settled := q;
     sockets := sockets r; timers := timers r; clock := clock r;
     output := output r; url_ok := url_ok r |}.

Definition with_sockets (ss : list Socket) (r : Runtime) : Runtime :=
  {| this := this r; promises := promises r; settled := settled r;
     sockets := ss; timers := timers r; clock := clock r;
     output := output r; url_ok := url_ok r |}.

Definition with_timers (ts : list Timer) (r : Runtime) : Runtime :=
  {| this := this r; promises := promises r; settled := settled r;
     sockets := sockets r; timers := ts; clock := clock r;
     output := output r; url_ok := url_ok r |}.

Definition with_clock (c : N) (r : Runtime) : Runtime :=
  {| this := this r; promises := promises r; settled := settled r;
     sockets := sockets r; timers := timers r; clock := c;
     output := output r; url_ok := url_ok r |}.

Definition with_output (out : list LogLine) (r : Runtime) : Runtime :=
  {| this := this r; promises := promises r; settled := settled r;
     sockets := sockets r; timers := timers r; clock := clock r;
     output := out; url_ok := url_ok r |}.

(** [resolve]/[reject] of a promise: the first call wins, later ones do
    nothing. *)
Definition settle (p : promise) (o : Outcome) (r : Runtime) : Runtime :=
  match promises r !! p with
  | Some None => with_promises (<[p := Some o]> (promises r)) (settled r ++ [p]) r
  | _ => r
  end.

Definition state_of (r : Runtime) (p : promise) : option Outcome :=
  match promises r !! p with
  | Some o => o
  | None => None
  end.

Definition readyState_of (r : Runtime) (s : socket) : ReadyState :=
  match sockets r !! s with
  | Some sk => readyState sk
  | None => CLOSED
  end.

Definition set_readyState (st : ReadyState) (sk : Socket) : Socket :=
  {| readyState := st; sent := sent sk; listeners := listeners sk; gone := gone sk |}.

(** [ws.send(frame)]; the source only sends on an [OPEN] socket. *)
Definition socket_send (frame : JSON) (sk : Socket) : Socket :=
  match readyState sk with
  | OPEN =>
      {| readyState := OPEN; sent := sent sk ++ [frame]; listeners := listeners sk;
         gone := gone sk |}
  | _ => sk
  end.

(** [ws.close()]: the close event itself comes later. *)
Definition socket_close (sk : Socket) : Socket :=
  match readyState sk with
  | CONNECTING | OPEN => set_readyState CLOSING sk
  | _ => sk
  end.

Definition socket_listen (t : timer) (p : promise) (sk : Socket) : Socket :=
  {| readyState := readyState sk; sent := sent sk; listeners := Some (t, p); gone := gone sk |}.

Definition disarm (tm : Timer) : Timer :=
  {| due := due tm; callback := callback tm; armed := false |}.

(** How far a program got. *)
Inductive Status (A : Type) : Type :=
| Done (a : A)
| Threw (e : Error)
| Blocked (p : promise) (k : Outcome -> Async A).

Arguments Done {A} a.
Arguments Threw {A} e.
Arguments Blocked {A} p k.

(** Runs a program up to its end or its first [await]. *)
Fixpoint exec {A : Type} (m : Async A) (r : Runtime) : Status A * Runtime :=
  match m with
  | Ret a => (Done a, r)
  | Throw e => (Threw e, r)
  | Read k => exec (k (this r)) r
  | Assign f k => exec k (with_this f r)
  | NewPromise k =>
      exec (k (length (promises r))) (with_promises (promises r ++ [None]) (settled r) r)
  | Settle p o k => exec k (settle p o r)
  | Await p k => (Blocked p k, r)
  | NewWebSocket url k =>
      if url_ok r url
      then exec (k (inr (length (sockets r))))
             (with_sockets (sockets r ++
                [{| readyState := CONNECTING; sent := []; listeners := None; gone := false |}]) r)
      else exec (k (inl SyntaxError)) r
  | GetReadyState s k => exec (k (readyState_of r s)) r
  | WsSend s frame k => exec k (with_sockets (alter (socket_send frame) s (sockets r)) r)
  | WsClose s k => exec k (with_sockets (alter socket_close s (sockets r)) r)
  | Listen s t p k => exec k (with_sockets (alter (socket_listen t p) s (sockets r)) r)
  | SetTimeout cb ms k =>
      exec (k (length (timers r)))
        (with_timers (timers r ++
           [{| due := (clock r + ms)%N; callback := cb; armed := true |}]) r)
  | ClearTimeout t k => exec k (with_timers (alter disarm t (timers r)) r)
  | Console line k => exec k (with_output (output r ++ [line]) r)
  | DateNow k => exec (k (clock r)) r
  end.

(** ** Device descriptors: [parseDevice] *)

(** [g?.length ? { motors: g.length, steps: g.map((x) => x.StepCount) } : undefined] *)
Definition capability {A : Type} (StepCount : A -> Z) (g : option (list A)) : option MotorSpec :=
  match g with
  | Some ((_ :: _) as l) => Some {| motors := length l; steps := map StepCount l |}
  | _ => None
  end.

Definition parseDevice (d : DeviceMessage) : IntifaceDevice :=
  let vibrate :=
    filter (fun s => Scalar.ActuatorType s = "Vibrate") <$> ScalarCmd (DeviceMessages_ d) in
  let rotate := RotateCmd (DeviceMessages_ d) in
  let linear := LinearCmd (DeviceMessages_ d) in
  {| index := DeviceIndex d;
     name := DeviceName d;
     capabilities :=
       {| Cap.vibrate := capability Scalar.StepCount vibrate;
          Cap.rotate := capability Motor.StepCount rotate;
          Cap.linear := capability Motor.StepCount linear |} |}.

(** The casts of [handleMessage] ([content as unknown as DeviceMessage],
    [content.Devices as DeviceMessage[]]) check nothing: a payload of the
    declared shape is read as that record.  For a payload of another shape the
    source goes on with ill-typed fields or fails on a property read; the
    model raises [TypeError] for all of them. *)
Definition as_Z (v : Value) : option Z :=
  match v with
  | Some (JNum q) => Q_as_Z q
  | _ => None
  end.

Definition as_string (v : Value) : option string :=
  match v with
  | Some (JStr s) => Some s
  | _ => None
  end.

Definition field (v : JSON) (key : string) : Value :=
  match v with
  | JObj entries => assoc key entries
  | _ => None
  end.

Definition as_array {A : Type} (elem : JSON -> option A) (v : Value) : option (option (list A)) :=
  match v with
  | None => Some None
  | Some (JArr items) => Some <$> mapM elem items
  | Some _ => None
  end.

Definition as_Scalar (v : JSON) : option Scalar.t :=
  n ← as_Z (field v "StepCount");
  a ← as_string (field v "ActuatorType");
  Some {| Scalar.StepCount := n; Scalar.ActuatorType := a |}.

Definition as_Motor (v : JSON) : option Motor.t :=
  n ← as_Z (field v "StepCount");
  Some {| Motor.StepCount := n |}.

Definition as_DeviceMessage (content : JSON) : option DeviceMessage :=
  i ← as_Z (field content "DeviceIndex");
  n ← as_string (field content "DeviceName");
  m ← field content "DeviceMessages";
  sc ← as_array as_Scalar (field m "ScalarCmd");
  rc ← as_array as_Motor (field m "RotateCmd");
  lc ← as_array as_Motor (field m "LinearCmd");
  Some {| DeviceIndex := i; DeviceName := n;
          DeviceMessages_ := {| ScalarCmd := sc; RotateCmd := rc; LinearCmd := lc |} |}.

Definition cast_DeviceMessage (content : JSON) : Error + DeviceMessage :=
  match as_DeviceMessage content with
  | Some d => inr d
  | None => inl TypeError
  end.

(** ** The request correlator: [nextId], [send] *)

Definition nextId : Async Z :=
  o ← read;
  assign (set_messageId (messageId o + 1));;
  mret (messageId o).

(** [this.ws && this.ws.readyState === WebSocket.OPEN] *)
Definition isConnected : Async bool :=
  o ← read;
  match ws o with
  | None => mret false
  | Some s => st ← ready_state s; mret (is_OPEN st)
  end.

(** The wire envelope [[{ [msgType]: { Id: id, ...payload } }]]. *)
Definition wrap (msgType : string) (id : Z) (payload : list (string * JSON)) : JSON :=
  JArr [JObj [(msgType, JObj (("Id", num id) :: payload))]].

(** [send] returns its promise; the callers await it. *)
Definition send (msgType : string) (payload : list (string * JSON)) : Async promise :=
  p ← new_promise;
  connected ← isConnected;
  (if negb connected
   then reject p NotConnected
   else
     id ← nextId;
     let wrappedMsg := wrap msgType id payload in
     assign (fun o => set_pendingMessages (<[id := p]> (pendingMessages o)) o);;
     o ← read;
     match ws o with
     | Some s => ws_send s wrappedMsg
     | None => mret tt
     end);;
  mret p.

(** ** The message codec and the routing table: [handleMessage] *)

Fixpoint for_of {A : Type} (l : list A) (body : A -> Async unit) : Async unit :=
  match l with
  | [] => mret tt
  | x :: rest => body x;; for_of rest body
  end.

(** [const pending = this.pendingMessages.get(id); if (pending) { ... }] *)
Definition pending_of (o : IntifaceState) (id : Value) : option (Z * promise) :=
  k ← as_Z id;
  p ← pendingMessages o !! k;
  Some (k, p).

Definition delete_pending (k : Z) : Async unit :=
  assign (fun o => set_pendingMessages (delete k (pendingMessages o)) o).

(** The body of the loop of [handleMessage]. *)
Definition route (msg : JSON) : Async unit :=
  entry ← lift (first_entry msg);
  match entry with
  | None => Throw TypeError
  | Some (type, content) =>
    id ← lift (prop content "Id");
    if String.eqb type "DeviceAdded" then
      d ← lift (cast_DeviceMessage content);
      let device := parseDevice d in
      assign (fun o => set_devices (<[index device := device]> (devices o)) o);;
      console (log_DeviceAdded (name device) (index device))
    else if String.eqb type "DeviceRemoved" then
      i ← lift (prop content "DeviceIndex");
      o ← read;
      match as_Z i with
      | Some k =>
          match devices o !! k with
          | Some device =>
              console (log_DeviceRemoved (name device) k);;
              assign (fun o => set_devices (delete k (devices o)) o)
          | None => mret tt
          end
      | None => mret tt
      end
    else if String.eqb type "DeviceList" then
      ds ← lift (prop content "Devices");
      deviceList ← lift (iterate ds);
      for_of deviceList (fun d =>
        d ← lift (cast_DeviceMessage d);
        let device := parseDevice d in
        assign (fun o => set_devices (<[index device := device]> (devices o)) o);;
        console (log_DeviceFound (name device) (index device)));;
      o ← read;
      match pending_of o id with
      | Some (k, p) => delete_pending k;; resolve p (Some content)
      | None => mret tt
      end
    else if String.eqb type "ScanningFinished" then
      console log_ScanningFinished
    else if String.eqb type "Error" then
      o ← read;
      match pending_of o id with
      | Some (k, p) =>
          delete_pending k;;
          message ← lift (prop content "ErrorMessage");
          reject p (ServerError message)
      | None => mret tt
      end
    else if String.eqb type "Ok" || String.eqb type "ServerInfo" then
      o ← read;
      match pending_of o id with
      | Some (k, p) => delete_pending k;; resolve p (Some content)
      | None => mret tt
      end
    else mret tt
  end.

Definition handleMessage (data : text) : Async unit :=
  try_catch
    (messages ← lift (JSON_parse data);
     items ← lift (iterate (Some messages));
     for_of items route)
    (fun err => console (error_FailedToParse err)).

(** ** The connection manager: [connect] and the handlers it installs *)

(** The callback of [setTimeout(..., 10000)]. *)
Definition ontimeout (p : promise) : Async unit :=
  o ← read;
  match ws o with
  | Some s => ws_close s
  | None => mret tt
  end;;
  reject p ConnectionTimeout;;
  assign (set_connectionPromise None).

(** [this.ws.onopen]. *)
Definition onopen (timeout : timer) (p : promise) : Async unit :=
  clearTimeout timeout;;
  console log_WebSocketConnected;;
  try_catch
    (q ← send "RequestServerInfo"
           [("ClientName", JStr "Familiar"); ("MessageVersion", num 3)];
     await q;;
     console log_HandshakeComplete;;
     q ← send "RequestDeviceList" [];
     await q;;
     q ← send "StartScanning" [];
     await q;;
     console log_StartedScanning;;
     resolve p None)
    (fun err => reject p err);;
  assign (set_connectionPromise None).

(** [this.ws.onmessage]. *)
Definition onmessage (data : text) : Async unit := handleMessage data.

(** [this.ws.onerror]. *)
Definition onerror (timeout : timer) (p : promise) : Async unit :=
  clearTimeout timeout;;
  console error_WebSocket;;
  reject p WebSocketError;;
  assign (set_connectionPromise None).

(** [this.ws.onclose]. *)
Definition onclose : Async unit :=
  console log_Disconnected;;
  assign (set_ws None);;
  assign (set_devices ∅);;
  assign (set_pendingMessages ∅).

(** The executor of [new Promise((resolve, reject) => ...)] in [connect]. *)
Definition connect_executor (p : promise) : Async unit :=
  o ← read;
  match wsUrl o with
  | None | Some "" => reject p UrlNotSet     (* [if (!wsUrl)] *)
  | Some url =>
      console (log_Connecting url);;
      r ← new_WebSocket url;
      match r with
      | inl err =>
          console (error_Constructor err);;
          reject p err;;
          assign (set_connectionPromise None)
      | inr s =>
          assign (set_ws (Some s));;
          timeout ← setTimeout (ConnectTimeout p) 10000%N;
          listen s timeout p
      end
  end.

Definition connect : Async unit :=
  connected ← isConnected;
  if (connected : bool) then mret tt
  else
    o ← read;
    match connectionPromise o with
    | Some p => await p;; mret tt
    | None =>
        p ← new_promise;
        connect_executor p;;
        assign (set_connectionPromise (Some p));;
        await p;; mret tt
    end.

Definition disconnect : Async unit :=
  o ← read;
  match ws o with
  | Some s => ws_close s;; assign (set_ws None)
  | None => mret tt
  end;;
  assign (set_devices ∅).

(** [await new Promise((resolve) => setTimeout(resolve, ms))] *)
Definition sleep (ms : N) : Async unit :=
  p ← new_promise;
  setTimeout (Wake p) ms;;
  await p;; mret tt.

(** The loop of [ensureConnected], [n] iterations left. *)
Fixpoint wait_for_device (n : nat) : Async unit :=
  match n with
  | O => mret tt
  | S n' =>
      o ← read;
      if Nat.ltb 0 (size (devices o)) then mret tt
      else sleep 500%N;; wait_for_device n'
  end.

Definition ensureConnected : Async unit :=
  connected ← isConnected;
  (if negb connected then connect else mret tt);;
  wait_for_device 10.

(** ** The actuation layer *)

(** [Math.max(0, Math.min(1, x))] *)
Definition clamp (x : Q) : Q := Qmax 0 (Qmin 1 x).

Definition scalar (i : nat) (x : Q) : JSON :=
  JObj [("Index", num (Z.of_nat i)); ("Scalar", JNum x); ("ActuatorType", JStr "Vibrate")].

(** [for (let i = 0; i < motorCount; i++) scalars.push(...)], with [n]
    iterations left. *)
Fixpoint push_scalars (n i : nat) (clampedStrength : Q) (motor : option Z)
    (scalars : list JSON) : list JSON :=
  match n with
  | O => scalars
  | S n' =>
      let x :=
        match motor with
        | None => clampedStrength
        | Some m => if Z.eqb m (Z.of_nat i) then clampedStrength else 0%Q
        end in
      push_scalars n' (S i) clampedStrength motor (scalars ++ [scalar i x])
  end.

Definition vibrate (deviceIndex : Z) (strength' : Q) (motor : option Z) : Async unit :=
  ensureConnected;;
  o ← read;
  match devices o !! deviceIndex with
  | None => Throw (DeviceNotFound deviceIndex)
  | Some device =>
      match Cap.vibrate (capabilities device) with
      | None => Throw (NoVibration deviceIndex)
      | Some v =>
          let clampedStrength := clamp strength' in
          let motorCount := motors v in
          let scalars := push_scalars motorCount 0 clampedStrength motor [] in
          q ← send "ScalarCmd" [("DeviceIndex", num deviceIndex); ("Scalars", JArr scalars)];
          await q;; mret tt
      end
  end.

Definition stop (deviceIndex : Z) : Async unit :=
  ensureConnected;;
  o ← read;
  match devices o !! deviceIndex with
  | None => Throw (DeviceNotFound deviceIndex)
  | Some _ =>
      q ← send "StopDeviceCmd" [("DeviceIndex", num deviceIndex)];
      await q;; mret tt
  end.

Definition stopAll : Async unit :=
  connected ← isConnected;
  if negb connected then mret tt
  else q ← send "StopAllDevices" []; await q;; mret tt.

Definition getBattery (deviceIndex : Z) : Async Value :=
  ensureConnected;;
  o ← read;
  match devices o !! deviceIndex with
  | None => Throw (DeviceNotFound deviceIndex)
  | Some _ =>
      try_catch
        (q ← send "BatteryLevelCmd" [("DeviceIndex", num deviceIndex)];
         result ← await q;
         match result with
         | Some r => lift (prop r "BatteryLevel")
         | None => Throw TypeError
         end)
        (fun _ => mret (Some JNull))
  end.

(** ** More of the actuation layer: [rotate], [linear], [vibrateForDuration] *)

(** [new Error(`Device ${deviceIndex} does not support ...`)]: the two
    messages of [rotate] and [linear], as errors that carry their message
    ([ServerError message] is [new Error(message)]). *)
Definition NoRotation (deviceIndex : Z) : Error :=
  ServerError (Some (JStr ("Device " +:+ pretty deviceIndex +:+ " does not support rotation"))).

Definition NoLinear (deviceIndex : Z) : Error :=
  ServerError
    (Some (JStr ("Device " +:+ pretty deviceIndex +:+ " does not support linear movement"))).

Definition rotation (i : nat) (x : Q) (clockwise : bool) : JSON :=
  JObj [("Index", num (Z.of_nat i)); ("Speed", JNum x); ("Clockwise", JBool clockwise)].

(** [for (let i = 0; i < motorCount; i++) rotations.push(...)], with [n]
    iterations left. *)
Fixpoint push_rotations (n i : nat) (clampedSpeed : Q) (clockwise : bool) (motor : option Z)
    (rotations : list JSON) : list JSON :=
  match n with
  | O => rotations
  | S n' =>
      let x :=
        match motor with
        | None => clampedSpeed
        | Some m => if Z.eqb m (Z.of_nat i) then clampedSpeed else 0%Q
        end in
      push_rotations n' (S i) clampedSpeed clockwise motor (rotations ++ [rotation i x clockwise])
  end.

Definition rotate (deviceIndex : Z) (speed : Q) (clockwise' : option bool) (motor : option Z)
  : Async unit :=
  let clockwise := default true clockwise' in
  ensureConnected;;
  o ← read;
  match devices o !! deviceIndex with
  | None => Throw (DeviceNotFound deviceIndex)
  | Some device =>
      match Cap.rotate (capabilities device) with
      | None => Throw (NoRotation deviceIndex)
      | Some v =>
          let clampedSpeed := clamp speed in
          let motorCount := motors v in
          let rotations := push_rotations motorCount 0 clampedSpeed clockwise motor [] in
          q ← send "RotateCmd" [("DeviceIndex", num deviceIndex); ("Rotations", JArr rotations)];
          await q;; mret tt
      end
  end.

Definition vector (i : nat) (durationMs x : Q) : JSON :=
  JObj [("Index", num (Z.of_nat i)); ("Duration", JNum durationMs); ("Position", JNum x)].

Fixpoint push_vectors (n i : nat) (durationMs clampedPosition : Q) (motor : option Z)
    (vectors : list JSON) : list JSON :=
  match n with
  | O => vectors
  | S n' =>
      let x :=
        match motor with
        | None => clampedPosition
        | Some m => if Z.eqb m (Z.of_nat i) then clampedPosition else 0%Q
        end in
      push_vectors n' (S i) durationMs clampedPosition motor (vectors ++ [vector i durationMs x])
  end.

Definition linear (deviceIndex : Z) (position durationMs : Q) (motor : option Z) : Async unit :=
  ensureConnected;;
  o ← read;
  match devices o !! deviceIndex with
  | None => Throw (DeviceNotFound deviceIndex)
  | Some device =>
      match Cap.linear (capabilities device) with
      | None => Throw (NoLinear deviceIndex)
      | Some v =>
          let clampedPosition := clamp position in
          let motorCount := motors v in
          let vectors := push_vectors motorCount 0 durationMs clampedPosition motor [] in
          q ← send "LinearCmd" [("DeviceIndex", num deviceIndex); ("Vectors", JArr vectors)];
          await q;; mret tt
      end
  end.


(** ** The presence controller *)

Definition setState (active' : bool) (device' : option Z) (strength' : option Q) : Async unit :=
  let device' := default 0 device' in
  let strength' := default DEFAULT_STRENGTH strength' in
  o ← read;
  let wasActive := active o in
  let isChanging := negb (Bool.eqb active' wasActive) in
  since' ← (if active'
            then if wasActive then mret (since o) else now ← date_now; mret (Some now)
            else mret None);
  assign (set_presence active' device' strength' since');;
  if isChanging then
    try_catch
      (if active'
       then console (log_StartingPresence device' strength');;
            vibrate device' strength' None
       else console (log_StoppingPresence device');;
            stop device')
      (fun err => console (error_FailedToControl err))
  else mret tt.

Definition start (device' : option Z) (strength' : option Q) : Async unit :=
  setState true (Some (default 0 device')) (Some (default DEFAULT_STRENGTH strength')).

Definition toggle (device' : option Z) (strength' : option Q) : Async unit :=
  o ← read;
  setState (negb (active o)) (Some (default 0 device')) (Some (default DEFAULT_STRENGTH strength')).

Definition restore : Async unit :=
  o ← read;
  setState (active o) (Some (device o)) (Some (strength o)).

(** Modelled from the spec: the type [ServerMessage] is declared in
    [./types], which is not among the sources; the state message carries the
    non-negative working count the bridge reads, any other message is left
    alone. *)
Inductive ServerMessage : Type :=
| state (working : Z)
| other (type : string).

Definition onSessionStateMessage (message : ServerMessage) : Async unit :=
  match message with
  | state working =>
      o ← read;
      let workingChanged := negb (Z.eqb working (lastWorkingCount o)) in
      let isNowWorking := Z.ltb 0 working in
      let wasWorking := Z.ltb 0 (lastWorkingCount o) in
      (if workingChanged && negb (Bool.eqb isNowWorking wasWorking)
       then
         try_catch
           (if isNowWorking
            then console log_StartingVibration;;
                 o ← read; vibrate (device o) (strength o) None
            else console log_StoppingVibration;;
                 o ← read; stop (device o))
           (fun err => console (error_FailedToControl err))
       else mret tt);;
      assign (set_lastWorkingCount working)
  | other _ => mret tt
  end.

(** ** The event loop *)

(** The public methods a collaborator calls. *)
Inductive Call : Type :=
| call_connect
| call_disconnect
| call_vibrate (deviceIndex : Z) (strength' : Q) (motor : option Z)
| call_stop (deviceIndex : Z)
| call_stopAll
| call_getBattery (deviceIndex : Z)
| call_setState (active' : bool) (device' : option Z) (strength' : option Q)
| call_start (device' : option Z) (strength' : option Q)
| call_toggle (device' : option Z) (strength' : option Q)
| call_restore
| call_onSessionStateMessage (message : ServerMessage).

Definition body (c : Call) : Async Value :=
  match c with
  | call_connect => connect;; mret None
  | call_disconnect => disconnect;; mret None
  | call_vibrate i x m => vibrate i x m;; mret None
  | call_stop i => stop i;; mret None
  | call_stopAll => stopAll;; mret None
  | call_getBattery i => getBattery i
  | call_setState a d x => setState a d x;; mret None
  | call_start d x => start d x;; mret None
  | call_toggle d x => toggle d x;; mret None
  | call_restore => restore;; mret None
  | call_onSessionStateMessage m => onSessionStateMessage m;; mret None
  end.

(** A call of an async method: its result promise is settled by what the
    body returns or throws.  (An async method awaited inside another one is
    run in place, as [bind].) *)
Definition task (c : Call) (result : promise) : Async unit :=
  try_catch (v ← body c; resolve result v) (fun e => reject result e).

Record Loop : Type := {
  rt : Runtime;
  waiting : list (promise * (Outcome -> Async unit));   (* suspended at an [await] *)
  ready : list (Async unit)                             (* the microtask queue *)
}.

Definition boot (url : string) (ok : string -> bool) : Loop :=
  {| rt := {| this := new_IntifaceState url; promises := []; settled := [];
              sockets := []; timers := []; clock := 0%N; output := []; url_ok := ok |};
     waiting := [];
     ready := [] |}.

(** The continuations waiting on [p], resumed with its outcome, in the
    order they suspended. *)
Definition reactions (p : promise) (o : Outcome)
    (w : list (promise * (Outcome -> Async unit))) : list (Async unit) :=
  omap (fun pk => if Nat.eqb (fst pk) p then Some (snd pk o) else None) w.

Definition still_waiting (p : promise)
    (w : list (promise * (Outcome -> Async unit))) : list (promise * (Outcome -> Async unit)) :=
  filter (fun pk => fst pk <> p) w.

Fixpoint wake (ps : list promise) (r : Runtime)
    (w : list (promise * (Outcome -> Async unit))) (q : list (Async unit))
  : list (promise * (Outcome -> Async unit)) * list (Async unit) :=
  match ps with
  | [] => (w, q)
  | p :: rest =>
      match state_of r p with
      | Some o => wake rest r (still_waiting p w) (q ++ reactions p o w)
      | None => wake rest r w q
      end
  end.

(** Runs one task to its end or its first [await]; the reactions of the
    promises it settled are queued, and so is the task itself when it awaits
    a promise that is settled already. *)
Definition run_task (t : Async unit) (l : Loop) : Loop :=
  let (st, r) := exec t (rt l) in
  let (w, q) := wake (settled r) r (waiting l) (ready l) in
  let r := with_promises (promises r) [] r in
  match st with
  | Done _ => {| rt := r; waiting := w; ready := q |}
  | Threw e => {| rt := with_output (output r ++ [error_Unhandled e]) r; waiting := w; ready := q |}
  | Blocked p k =>
      match state_of r p with
      | Some o => {| rt := r; waiting := w; ready := q ++ [k o] |}
      | None => {| rt := r; waiting := w ++ [(p, k)]; ready := q |}
      end
  end.

Inductive Event : Type :=
| Invoke (c : Call)                      (* a collaborator calls a method *)
| Opened (s : socket)                    (* the open event of a socket *)
| Received (s : socket) (data : text)    (* a text frame arrives *)
| Errored (s : socket)                   (* the error event: the connection failed *)
| Closed (s : socket)                    (* the close event *)
| Elapsed (ms : N)                       (* time passes *)
| Fired (t : timer)                      (* a timer that is due runs its callback *)
| Microtask.                             (* the next reaction in the queue runs *)

Definition with_rt (r : Runtime) (l : Loop) : Loop :=
  {| rt := r; waiting := waiting l; ready := ready l |}.

Definition update_socket (s : socket) (f : Socket -> Socket) (l : Loop) : Loop :=
  with_rt (with_sockets (alter f s (sockets (rt l))) (rt l)) l.

Definition on_callback (cb : Callback) : Async unit :=
  match cb with
  | ConnectTimeout p => ontimeout p
  | Wake p => resolve p None
  end.

(** One turn of the loop.  [None]: the event cannot happen in this state
    (events other than [Microtask] wait for the microtask queue to be
    empty). *)
Definition step (ev : Event) (l : Loop) : option Loop :=
  match ev, ready l with
  | Microtask, t :: rest => Some (run_task t {| rt := rt l; waiting := waiting l; ready := rest |})
  | Microtask, [] => None
  | _, _ :: _ => None
  | Invoke c, [] =>
      let r := rt l in
      let result := length (promises r) in
      Some (run_task (task c result)
              (with_rt (with_promises (promises r ++ [None]) (settled r) r) l))
  | Opened s, [] =>
      sk ← sockets (rt l) !! s;
      match readyState sk with
      | CONNECTING =>
          let l := update_socket s (set_readyState OPEN) l in
          Some (match listeners sk with
                | Some (t, p) => run_task (onopen t p) l
                | None => l
                end)
      | _ => None
      end
  | Received s data, [] =>
      sk ← sockets (rt l) !! s;
      match readyState sk with
      | OPEN | CLOSING =>
          Some (match listeners sk with
                | Some _ => run_task (onmessage data) l
                | None => l
                end)
      | _ => None
      end
  | Errored s, [] =>
      sk ← sockets (rt l) !! s;
      if gone sk then None
      else
        let l := update_socket s (set_readyState CLOSED) l in
        Some (match listeners sk with
              | Some (t, p) => run_task (onerror t p) l
              | None => l
              end)
  | Closed s, [] =>
      sk ← sockets (rt l) !! s;
      if gone sk then None
      else
        let l := update_socket s (fun sk =>
          {| readyState := CLOSED; sent := sent sk; listeners := listeners sk; gone := true |}) l in
        Some (match listeners sk with
              | Some _ => run_task onclose l
              | None => l
              end)
  | Elapsed ms, [] => Some (with_rt (with_clock (clock (rt l) + ms)%N (rt l)) l)
  | Fired t, [] =>
      tm ← timers (rt l) !! t;
      if armed tm && (due tm <=? clock (rt l))%N
      then Some (run_task (on_callback (callback tm))
                   (with_rt (with_timers (alter disarm t (timers (rt l))) (rt l)) l))
      else None
  end.

(** The states the client can be in. *)
Inductive reachable : Loop -> Prop :=
| reachable_boot url ok : reachable (boot url ok)
| reachable_step l ev l' : reachable l -> step ev l = Some l' -> reachable l'.

(** A macrotask with the microtasks it leaves, and a sequence of them. *)
Fixpoint drain (fuel : nat) (l : Loop) : Loop :=
  match fuel with
  | O => l
  | S fuel' =>
      match step Microtask l with
      | Some l' => drain fuel' l'
      | None => l
      end
  end.

Definition deliver (ev : Event) (l : Loop) : option Loop :=
  l' ← step ev l; Some (drain 64 l').

Fixpoint run (evs : list Event) (l : Loop) : option Loop :=
  match evs with
  | [] => Some l
  | ev :: rest => l' ← deliver ev l; run rest l'
  end.

(** * What the theorems speak of *)

(** ** Device descriptors *)

(** A capability [c] parsed from the actuator group [g]: absent exactly when
    the group is empty, otherwise its count and its step counts in order. *)
Definition describes {A : Type} (StepCount : A -> Z) (g : list A) (c : option MotorSpec) : Prop :=
  (c = None <-> g = []) /\
  forall m, c = Some m -> motors m = length g /\ steps m = map StepCount g.


(** ** Requests *)

(** What [isConnected] answers. *)
Definition connected (r : Runtime) : bool :=
  match ws (this r) with
  | Some s => is_OPEN (readyState_of r s)
  | None => false
  end.

(** The runtime after [send msgType payload] on the open socket [s]: a new
    promise, registered under the next id, and the frame on the wire. *)
Definition after_send (msgType : string) (payload : list (string * JSON)) (s : socket)
    (r : Runtime) : Runtime :=
  let p := length (promises r) in
  let id := messageId (this r) in
  with_sockets (alter (socket_send (wrap msgType id payload)) s (sockets r))
    (with_this (fun o => set_pendingMessages (<[id := p]> (pendingMessages o)) o)
       (with_this (set_messageId (id + 1))
          (with_promises (promises r ++ [None]) (settled r) r))).

(** How a caller that awaits a request goes on with its outcome. *)
Definition passes_on {A : Type} (k : Outcome -> Async A) (a : A) : Prop :=
  (forall v r, exec (k (Fulfilled v)) r = (Done a, r)) /\
  (forall e r, exec (k (Rejected e)) r = (Threw e, r)).

(** ** Programs that never suspend *)

Inductive Sync {A : Type} : Async A -> Prop :=
| Sync_Ret a : Sync (Ret a)
| Sync_Throw e : Sync (Throw e)
| Sync_Read k : (forall o, Sync (k o)) -> Sync (Read k)
| Sync_Assign f k : Sync k -> Sync (Assign f k)
| Sync_NewPromise k : (forall p, Sync (k p)) -> Sync (NewPromise k)
| Sync_Settle p o k : Sync k -> Sync (Settle p o k)
| Sync_NewWebSocket url k : (forall x, Sync (k x)) -> Sync (NewWebSocket url k)
| Sync_GetReadyState s k : (forall x, Sync (k x)) -> Sync (GetReadyState s k)
| Sync_WsSend s frame k : Sync k -> Sync (WsSend s frame k)
| Sync_WsClose s k : Sync k -> Sync (WsClose s k)
| Sync_Listen s t p k : Sync k -> Sync (Listen s t p k)
| Sync_SetTimeout cb ms k : (forall t, Sync (k t)) -> Sync (SetTimeout cb ms k)
| Sync_ClearTimeout t k : Sync k -> Sync (ClearTimeout t k)
| Sync_Console line k : Sync k -> Sync (Console line k)
| Sync_DateNow k : (forall t, Sync (k t)) -> Sync (DateNow k).

(** ** The presence state *)

Definition presence (o : IntifaceState) : bool * Z * Q * option N :=
  (active o, device o, strength o, since o).

(** [since] is set exactly when [active] is. *)
Definition since_iff_active (x : bool * Z * Q * option N) : Prop :=
  x.2 <> None <-> x.1.1.1 = true.

(** Every assignment of the program keeps [P] of the presence fields, given
    that every state it reads has [P]. *)
Inductive Safe (P : bool * Z * Q * option N -> Prop) {A : Type} : Async A -> Prop :=
| Safe_Ret a : Safe P (Ret a)
| Safe_Throw e : Safe P (Throw e)
| Safe_Read k : (forall o, P (presence o) -> Safe P (k o)) -> Safe P (Read k)
| Safe_Assign f k :
    (forall o, P (presence o) -> P (presence (f o))) -> Safe P k -> Safe P (Assign f k)
| Safe_NewPromise k : (forall p, Safe P (k p)) -> Safe P (NewPromise k)
| Safe_Settle p o k : Safe P k -> Safe P (Settle p o k)
| Safe_Await p k : (forall o, Safe P (k o)) -> Safe P (Await p k)
| Safe_NewWebSocket url k : (forall x, Safe P (k x)) -> Safe P (NewWebSocket url k)
| Safe_GetReadyState s k : (forall x, Safe P (k x)) -> Safe P (GetReadyState s k)
| Safe_WsSend s frame k : Safe P k -> Safe P (WsSend s frame k)
| Safe_WsClose s k : Safe P k -> Safe P (WsClose s k)
| Safe_Listen s t p k : Safe P k -> Safe P (Listen s t p k)
| Safe_SetTimeout cb ms k : (forall t, Safe P (k t)) -> Safe P (SetTimeout cb ms k)
| Safe_ClearTimeout t k : Safe P k -> Safe P (ClearTimeout t k)
| Safe_Console line k : Safe P k -> Safe P (Console line k)
| Safe_DateNow k : (forall t, Safe P (k t)) -> Safe P (DateNow k).

(** The invariant of the loop: the presence fields of the object, and every
    suspended or queued continuation keeps them so. *)
Definition presence_ok (l : Loop) : Prop :=
  since_iff_active (presence (this (rt l))) /\
  Forall (fun pk => forall o, Safe since_iff_active (pk.2 o)) (waiting l) /\
  Forall (Safe since_iff_active) (ready l).

(** ** Connect attempts *)

(** The socket, the timer and the runtime a new attempt leaves. *)
Definition attempt_socket (r : Runtime) : Socket :=
  {| readyState := CONNECTING; sent := [];
     listeners := Some (length (timers r), length (promises r)); gone := false |}.

Definition attempt_timer (r : Runtime) : Timer :=
  {| due := (clock r + 10000)%N; callback := ConnectTimeout (length (promises r));
     armed := true |}.

Definition attempting (url : string) (r : Runtime) : Runtime :=
  {| this := set_connectionPromise (Some (length (promises r)))
               (set_ws (Some (length (sockets r))) (this r));
     promises := promises r ++ [None];
     settled := settled r;
     sockets := sockets r ++ [attempt_socket r];
     timers := timers r ++ [attempt_timer r];
     clock := clock r;
     output := output r ++ [log_Connecting url];
     url_ok := url_ok r |}.

(** A caller's continuation that hands the outcome of the attempt to the
    caller's own promise. *)
Definition relays (k : Outcome -> Async unit) (result : promise) : Prop :=
  forall o r,
    exec (k o) r =
    (Done tt, settle result match o with
                            | Fulfilled _ => Fulfilled None
                            | Rejected e => Rejected e
                            end r).

(** What an attempt leaves when it fails and when it succeeds. *)
Definition attempt_fails (p : promise) (e : Error) (r : Runtime) : Runtime :=
  with_this (set_connectionPromise None) (settle p (Rejected e) r).

Definition attempt_succeeds (p : promise) (r : Runtime) : Runtime :=
  with_this (set_connectionPromise None)
    (settle p (Fulfilled None) (with_output (output r ++ [log_StartedScanning]) r)).

(** The three awaits of [onopen], last first: what the handler does when the
    request it awaits is answered. *)
Definition awaits_scan_ack (p : promise) (k : Outcome -> Async unit) : Prop :=
  (forall e r, exec (k (Rejected e)) r = (Done tt, attempt_fails p e r)) /\
  (forall v r, exec (k (Fulfilled v)) r = (Done tt, attempt_succeeds p r)).

Definition awaits_device_list (p : promise) (k : Outcome -> Async unit) : Prop :=
  (forall e r, exec (k (Rejected e)) r = (Done tt, attempt_fails p e r)) /\
  (forall v r s,
     ws (this r) = Some s -> readyState_of r s = OPEN ->
     exists k',
       exec (k (Fulfilled v)) r =
         (Blocked (length (promises r)) k', after_send "StartScanning" [] s r) /\
       awaits_scan_ack p k').

Definition awaits_server_info (p : promise) (k : Outcome -> Async unit) : Prop :=
  (forall e r, exec (k (Rejected e)) r = (Done tt, attempt_fails p e r)) /\
  (forall v r s,
     ws (this r) = Some s -> readyState_of r s = OPEN ->
     exists k',
       exec (k (Fulfilled v)) r =
         (Blocked (length (promises r)) k',
          after_send "RequestDeviceList" [] s
            (with_output (output r ++ [log_HandshakeComplete]) r)) /\
       awaits_device_list p k').

(** The runtime when the handler of the open event has cancelled the timer. *)
Definition opened (t : timer) (r : Runtime) : Runtime :=
  with_output (output r ++ [log_WebSocketConnected])
    (with_timers (alter disarm t (timers r)) r).

(** Zero or more turns of the loop. *)
Inductive turns (l : Loop) : Loop -> Prop :=
| turns_refl : turns l l
| turns_step l1 ev l2 : turns l l1 -> step ev l1 = Some l2 -> turns l l2.

(** A timer that was cancelled or has fired. *)
Definition disarmed (r : Runtime) (t : timer) : Prop :=
  exists tm, timers r !! t = Some tm /\ armed tm = false.

(** ** A session with a three-motor device *)

Definition url0 : string := "ws://127.0.0.1:12345".
Definition l0 : Loop := boot url0 (fun _ => true).

Definition frame (type : string) (content : list (string * JSON)) : text :=
  JSONText (JArr [JObj [(type, JObj content)]]).

Definition vibrator (stepCount : Z) : JSON :=
  JObj [("StepCount", num stepCount); ("ActuatorType", JStr "Vibrate")].

Definition toy : JSON :=
  JObj [("DeviceIndex", num 0); ("DeviceName", JStr "toy");
        ("DeviceMessages",
         JObj [("ScalarCmd", JArr [vibrator 20; vibrator 20; vibrator 10])])].

Definition toy_device : IntifaceDevice :=
  {| index := 0; name := "toy";
     capabilities :=
       {| Cap.vibrate := Some {| motors := 3; steps := [20; 20; 10] |};
          Cap.rotate := None; Cap.linear := None |} |}.

(** [connect()] answered by the server: the socket opens and the three
    requests of the handshake are acknowledged. *)
Definition handshake : list Event :=
  [Invoke call_connect; Opened 0%nat;
   Received 0%nat (frame "ServerInfo" [("Id", num 1)]);
   Received 0%nat (frame "DeviceList" [("Id", num 2); ("Devices", JArr [toy])]);
   Received 0%nat (frame "Ok" [("Id", num 3)])].

(** The socket of the session once the handshake is over. *)
Definition session_socket : Socket :=
  {| readyState := OPEN;
     sent := [wrap "RequestServerInfo" 1
                [("ClientName", JStr "Familiar"); ("MessageVersion", num 3)];
              wrap "RequestDeviceList" 2 [];
              wrap "StartScanning" 3 []];
     listeners := Some (0%nat, 1%nat);
     gone := false |}.

Definition after (evs : list Event) : Loop := default l0 (run evs l0).

(** The promise a call returns, as it stands some events later. *)
Definition outcome_of_call (before : list Event) (c : Call) (later : list Event)
  : option (option Outcome) :=
  l1 ← run before l0;
  l2 ← run (Invoke c :: later) l1;
  Some (state_of (rt l2) (length (promises (rt l1)))).

Definition notify (working : Z) : Event :=
  Invoke (call_onSessionStateMessage (state working)).

Definition acknowledge (id : Z) : Event := Received 0%nat (frame "Ok" [("Id", num id)]).

Definition is_actuation (line : LogLine) : bool :=
  match line with
  | log_StartingVibration | log_StoppingVibration => true
  | _ => false
  end.

Definition is_notification (ev : Event) : bool :=
  match ev with
  | Invoke (call_onSessionStateMessage _) => true
  | _ => false
  end.

(** The actuations a trace triggers, each with the number of the
    notification that triggered it ([i]: the notifications so far). *)
Fixpoint transitions (i : nat) (evs : list Event) (l : Loop) : list (nat * LogLine) :=
  match evs with
  | [] => []
  | ev :: rest =>
      match deliver ev l with
      | None => []
      | Some l' =>
          let before := List.filter is_actuation (output (rt l)) in
          let now := List.filter is_actuation (output (rt l')) in
          map (pair i) (drop (length before) now) ++
          transitions (if is_notification ev then S i else i) rest l'
      end
  end.

(** The counts [0,0,3,3,0,5,0], every command acknowledged before the next
    notification. *)
Definition working_counts : list Event :=
  [notify 0; notify 0; notify 3; acknowledge 4; notify 3; notify 0; acknowledge 5;
   notify 5; acknowledge 6; notify 0; acknowledge 7].

(** ** Replies and discovery frames *)

(** A frame with one message whose content is any value. *)
Definition message (type : string) (content : JSON) : text :=
  JSONText (JArr [JObj [(type, content)]]).

(** The message types [handleMessage] routes. *)
Definition routed : list string :=
  ["DeviceAdded"; "DeviceRemoved"; "DeviceList"; "ScanningFinished"; "Error"; "Ok"; "ServerInfo"].

(** The pending table without the entry of [id]. *)
Definition answered (id : Z) (r : Runtime) : Runtime :=
  with_this (fun o => set_pendingMessages (delete id (pendingMessages o)) o) r.


(** ** Sleeping and polling *)

(** The runtime after [sleep ms] has set its timer. *)
Definition asleep (ms : N) (r : Runtime) : Runtime :=
  with_timers
    (timers r ++ [{| due := (clock r + ms)%N; callback := Wake (length (promises r));
                     armed := true |}])
    (with_promises (promises r ++ [None]) (settled r) r).

(** [m] looks at the registry at most [n] more times, sleeps 500 ms after
    each look that finds it empty, and then goes on as [rest]. *)
Fixpoint polls {A : Type} (n : nat) (m rest : Async A) : Prop :=
  forall r,
    if Nat.ltb 0 (size (devices (this r))) then exec m r = exec rest r
    else
      match n with
      | O => exec m r = exec rest r
      | S n' =>
          exists k,
            exec m r = (Blocked (length (promises r)) k, asleep 500 r) /\
            forall v, polls n' (k (Fulfilled v)) rest
      end.


(** A second device, with two rotating motors and a linear one, added to
    the session. *)
Definition spinner : JSON :=
  JObj [("DeviceIndex", num 1); ("DeviceName", JStr "spinner");
        ("DeviceMessages",
         JObj [("RotateCmd", JArr [JObj [("StepCount", num 8)]; JObj [("StepCount", num 8)]]);
               ("LinearCmd", JArr [JObj [("StepCount", num 100)]])])].

Definition spinner_device : IntifaceDevice :=
  {| index := 1; name := "spinner";
     capabilities :=
       {| Cap.vibrate := None;
          Cap.rotate := Some {| motors := 2; steps := [8; 8] |};
          Cap.linear := Some {| motors := 1; steps := [100] |} |} |}.

Definition two_devices : list Event :=
  handshake ++ [Received 0%nat (message "DeviceAdded" spinner)].

(** ** Programs that never throw *)

(** No path of the program ends in a [throw] that leaves it. *)
Inductive NoThrow {A : Type} : Async A -> Prop :=
| NoThrow_Ret a : NoThrow (Ret a)
| NoThrow_Read k : (forall o, NoThrow (k o)) -> NoThrow (Read k)
| NoThrow_Assign f k : NoThrow k -> NoThrow (Assign f k)
| NoThrow_NewPromise k : (forall p, NoThrow (k p)) -> NoThrow (NewPromise k)
| NoThrow_Settle p o k : NoThrow k -> NoThrow (Settle p o k)
| NoThrow_Await p k : (forall o, NoThrow (k o)) -> NoThrow (Await p k)
| NoThrow_NewWebSocket url k : (forall x, NoThrow (k x)) -> NoThrow (NewWebSocket url k)
| NoThrow_GetReadyState s k : (forall x, NoThrow (k x)) -> NoThrow (GetReadyState s k)
| NoThrow_WsSend s frame k : NoThrow k -> NoThrow (WsSend s frame k)
| NoThrow_WsClose s k : NoThrow k -> NoThrow (WsClose s k)
| NoThrow_Listen s t p k : NoThrow k -> NoThrow (Listen s t p k)
| NoThrow_SetTimeout cb ms k : (forall t, NoThrow (k t)) -> NoThrow (SetTimeout cb ms k)
| NoThrow_ClearTimeout t k : NoThrow k -> NoThrow (ClearTimeout t k)
| NoThrow_Console line k : NoThrow k -> NoThrow (Console line k)
| NoThrow_DateNow k : (forall t, NoThrow (k t)) -> NoThrow (DateNow k).

(** The program never throws, and whenever it ends the fields of [this]
    satisfy [Q]: [o] is the state it runs from; after an [await] the fields
    may be anything. *)
Inductive Finally (Q : IntifaceState -> Prop) {A : Type} : Async A -> IntifaceState -> Prop :=
| Finally_Ret a o : Q o -> Finally Q (Ret a) o
| Finally_Read k o : Finally Q (k o) o -> Finally Q (Read k) o
| Finally_Assign f k o : Finally Q k (f o) -> Finally Q (Assign f k) o
| Finally_NewPromise k o : (forall p, Finally Q (k p) o) -> Finally Q (NewPromise k) o
| Finally_Settle p out k o : Finally Q k o -> Finally Q (Settle p out k) o
| Finally_Await p k o : (forall out o', Finally Q (k out) o') -> Finally Q (Await p k) o
| Finally_NewWebSocket url k o :
    (forall x, Finally Q (k x) o) -> Finally Q (NewWebSocket url k) o
| Finally_GetReadyState s k o :
    (forall x, Finally Q (k x) o) -> Finally Q (GetReadyState s k) o
| Finally_WsSend s frame k o : Finally Q k o -> Finally Q (WsSend s frame k) o
| Finally_WsClose s k o : Finally Q k o -> Finally Q (WsClose s k) o
| Finally_Listen s t p k o : Finally Q k o -> Finally Q (Listen s t p k) o
| Finally_SetTimeout cb ms k o :
    (forall t, Finally Q (k t) o) -> Finally Q (SetTimeout cb ms k) o
| Finally_ClearTimeout t k o : Finally Q k o -> Finally Q (ClearTimeout t k) o
| Finally_Console line k o : Finally Q k o -> Finally Q (Console line k) o
| Finally_DateNow k o : (forall t, Finally Q (k t) o) -> Finally Q (DateNow k) o.


(** ** The tables of the client *)

(** The counter is ahead of every id in the pending table, and every
    device of the registry is filed under its own index. *)
Definition tables_ok (o : IntifaceState) : Prop :=
  1 <= messageId o /\
  (forall k p, pendingMessages o !! k = Some p -> 1 <= k < messageId o) /\
  (forall i d, devices o !! i = Some d -> index d = i).

(** Run from the fields [o], every assignment of the program leaves fields
    that satisfy [I]; after an [await] the program goes on from any fields
    that satisfy [I]. *)
Inductive Keeps (I : IntifaceState -> Prop) {A : Type} : Async A -> IntifaceState -> Prop :=
| Keeps_Ret a o : Keeps I (Ret a) o
| Keeps_Throw e o : Keeps I (Throw e) o
| Keeps_Read k o : Keeps I (k o) o -> Keeps I (Read k) o
| Keeps_Assign f k o : I (f o) -> Keeps I k (f o) -> Keeps I (Assign f k) o
| Keeps_NewPromise k o : (forall p, Keeps I (k p) o) -> Keeps I (NewPromise k) o
| Keeps_Settle p out k o : Keeps I k o -> Keeps I (Settle p out k) o
| Keeps_Await p k o : (forall out o', I o' -> Keeps I (k out) o') -> Keeps I (Await p k) o
| Keeps_NewWebSocket url k o : (forall x, Keeps I (k x) o) -> Keeps I (NewWebSocket url k) o
| Keeps_GetReadyState s k o : (forall x, Keeps I (k x) o) -> Keeps I (GetReadyState s k) o
| Keeps_WsSend s frame k o : Keeps I k o -> Keeps I (WsSend s frame k) o
| Keeps_WsClose s k o : Keeps I k o -> Keeps I (WsClose s k) o
| Keeps_Listen s t p k o : Keeps I k o -> Keeps I (Listen s t p k) o
| Keeps_SetTimeout cb ms k o : (forall t, Keeps I (k t) o) -> Keeps I (SetTimeout cb ms k) o
| Keeps_ClearTimeout t k o : Keeps I k o -> Keeps I (ClearTimeout t k) o
| Keeps_Console line k o : Keeps I k o -> Keeps I (Console line k) o
| Keeps_DateNow k o : (forall t, Keeps I (k t) o) -> Keeps I (DateNow k) o.

(** The invariant of the loop: the tables of the object, and every suspended
    or queued continuation keeps them so. *)
Definition tables_inv (l : Loop) : Prop :=
  tables_ok (this (rt l)) /\
  Forall (fun pk => forall out o, tables_ok o -> Keeps tables_ok (pk.2 out) o) (waiting l) /\
  Forall (fun t => forall o, tables_ok o -> Keeps tables_ok t o) (ready l).

(** ** How the fields move *)

(** Run from the fields [o], every assignment of the program takes the
    fields to fields related to them by [R], whatever the fields are after
    an [await]. *)
Inductive Moves (R : IntifaceState -> IntifaceState -> Prop) {A : Type}
  : Async A -> IntifaceState -> Prop :=
| Moves_Ret a o : Moves R (Ret a) o
| Moves_Throw e o : Moves R (Throw e) o
| Moves_Read k o : Moves R (k o) o -> Moves R (Read k) o
| Moves_Assign f k o : R o (f o) -> Moves R k (f o) -> Moves R (Assign f k) o
| Moves_NewPromise k o : (forall p, Moves R (k p) o) -> Moves R (NewPromise k) o
| Moves_Settle p out k o : Moves R k o -> Moves R (Settle p out k) o
| Moves_Await p k o : (forall out o', Moves R (k out) o') -> Moves R (Await p k) o
| Moves_NewWebSocket url k o : (forall x, Moves R (k x) o) -> Moves R (NewWebSocket url k) o
| Moves_GetReadyState s k o : (forall x, Moves R (k x) o) -> Moves R (GetReadyState s k) o
| Moves_WsSend s frame k o : Moves R k o -> Moves R (WsSend s frame k) o
| Moves_WsClose s k o : Moves R k o -> Moves R (WsClose s k) o
| Moves_Listen s t p k o : Moves R k o -> Moves R (Listen s t p k) o
| Moves_SetTimeout cb ms k o : (forall t, Moves R (k t) o) -> Moves R (SetTimeout cb ms k) o
| Moves_ClearTimeout t k o : Moves R k o -> Moves R (ClearTimeout t k) o
| Moves_Console line k o : Moves R k o -> Moves R (Console line k) o
| Moves_DateNow k o : (forall t, Moves R (k t) o) -> Moves R (DateNow k) o.

(** The counter does not go back and the URL stays. *)
Definition advances (o o' : IntifaceState) : Prop :=
  messageId o <= messageId o' /\ wsUrl o' = wsUrl o.

Definition moves_inv (l : Loop) : Prop :=
  Forall (fun pk => forall out o, Moves advances (pk.2 out) o) (waiting l) /\
  Forall (fun t => forall o, Moves advances t o) (ready l).

(** * Lemmas and theorems *)

(** ** Running programs *)

Lemma exec_bind {A B : Type} (m : Async A) (f : A -> Async B) (r : Runtime) :
  exec (bind m f) r =
  match exec m r with
  | (Done a, r') => exec (f a) r'
  | (Threw e, r') => (Threw e, r')
  | (Blocked p k, r') => (Blocked p (fun o => bind (k o) f), r')
  end.
Proof.
  revert r; induction m; intros r; simpl; auto.
  destruct (url_ok r url); auto.
Qed.

Lemma exec_try_catch {A : Type} (m : Async A) (h : Error -> Async A) (r : Runtime) :
  exec (try_catch m h) r =
  match exec m r with
  | (Done a, r') => (Done a, r')
  | (Threw e, r') => exec (h e) r'
  | (Blocked p k, r') => (Blocked p (fun o => try_catch (k o) h), r')
  end.
Proof.
  revert r; induction m; intros r; simpl; auto.
  destruct (url_ok r url); auto.
Qed.

Lemma exec_for_of_cons {A : Type} (x : A) (l : list A) (body : A -> Async unit) (r : Runtime) :
  exec (for_of (x :: l) body) r =
  match exec (body x) r with
  | (Done _, r') => exec (for_of l body) r'
  | (Threw e, r') => (Threw e, r')
  | (Blocked p k, r') => (Blocked p (fun o => bind (k o) (fun _ => for_of l body)), r')
  end.
Proof. simpl. unfold mbind, Async_bind. apply exec_bind. Qed.

Lemma this_settle (p : promise) (o : Outcome) (r : Runtime) : this (settle p o r) = this r.
Proof. unfold settle. destruct (promises r !! p) as [[?|]|]; reflexivity. Qed.

Lemma timers_settle (p : promise) (o : Outcome) (r : Runtime) :
  timers (settle p o r) = timers r.
Proof. unfold settle. destruct (promises r !! p) as [[?|]|]; reflexivity. Qed.

Lemma state_of_settle_same (p : promise) (o : Outcome) (r : Runtime) :
  promises r !! p = Some None -> state_of (settle p o r) p = Some o.
Proof.
  intros H. unfold settle. rewrite H. unfold state_of. cbn.
  rewrite list_lookup_insert_eq by (eapply lookup_lt_Some; eassumption). reflexivity.
Qed.

Lemma state_of_settle_other (p q : promise) (o : Outcome) (r : Runtime) :
  p <> q -> state_of (settle q o r) p = state_of r p.
Proof.
  intros H. unfold settle. destruct (promises r !! q) as [[?|]|]; try reflexivity.
  unfold state_of. cbn. rewrite list_lookup_insert_ne by congruence. reflexivity.
Qed.

Lemma state_of_alloc (r : Runtime) (p : promise) (q : list promise) :
  state_of r p = None ->
  state_of (with_promises (promises r ++ [None]) q r) p = None.
Proof.
  unfold state_of. cbn. intros H.
  destruct (decide (p < length (promises r))%nat) as [Hlt|Hge].
  - rewrite lookup_app_l by assumption. exact H.
  - destruct ((promises r ++ [None]) !! p) as [o|] eqn:E; [|reflexivity].
    apply lookup_app_Some in E as [E|[_ E]].
    + apply lookup_lt_Some in E. lia.
    + destruct (p - length (promises r))%nat; cbn in E; [congruence|discriminate].
Qed.

Lemma with_promises_id (r : Runtime) :
  settled r = [] -> with_promises (promises r) [] r = r.
Proof. intros H. destruct r. cbn in *. subst. reflexivity. Qed.

Lemma alter_last {A : Type} (f : A -> A) (l : list A) (x : A) :
  alter f (length l) (l ++ [x]) = l ++ [f x].
Proof. induction l as [|y l IH]; simpl; [reflexivity|]. f_equal. exact IH. Qed.

Lemma size_pos_of_lookup {A : Type} (m : gmap Z A) (i : Z) (x : A) :
  m !! i = Some x -> (0 < size m)%nat.
Proof.
  intros H. destruct (decide (size m = 0%nat)) as [E|E]; [|lia].
  apply map_size_empty_iff in E. subst m. rewrite lookup_empty in H. discriminate.
Qed.

Lemma Forall_filter_keep {A : Type} (P Q : A -> Prop) `{forall x, Decision (Q x)} (l : list A) :
  Forall P l -> Forall P (filter Q l).
Proof.
  induction 1 as [|x l Hx Hl IH]; [constructor|].
  rewrite filter_cons. destruct (decide (Q x)); auto.
Qed.

(** ** Programs that never suspend *)

Lemma Sync_bind {A B : Type} (m : Async A) (f : A -> Async B) :
  Sync m -> (forall a, Sync (f a)) -> Sync (bind m f).
Proof. intros Hm Hf. induction Hm; simpl; try constructor; auto. Qed.

Lemma Sync_try_catch {A : Type} (m : Async A) (h : Error -> Async A) :
  Sync m -> (forall e, Sync (h e)) -> Sync (try_catch m h).
Proof. intros Hm Hh. induction Hm; simpl; try constructor; auto. Qed.

Lemma Sync_exec {A : Type} (m : Async A) (r : Runtime) :
  Sync m -> forall p k r', exec m r <> (Blocked p k, r').
Proof.
  intros Hm. revert r. induction Hm; intros r q k' r'; simpl; try congruence; auto.
  destruct (url_ok r url); auto.
Qed.

Lemma Sync_lift {A : Type} (x : Error + A) : Sync (lift x).
Proof. destruct x; constructor. Qed.

Lemma Sync_for_of {A : Type} (l : list A) (body : A -> Async unit) :
  (forall x, Sync (body x)) -> Sync (for_of l body).
Proof.
  intros H. induction l as [|x l IH]; simpl; [constructor|].
  apply Sync_bind; auto.
Qed.

Ltac sync :=
  repeat first
    [ apply Sync_lift
    | apply Sync_for_of; intros
    | apply Sync_bind; [|intros]
    | apply Sync_try_catch; [|intros]
    | progress (unfold mbind, mret, Async_bind, Async_ret, read, assign, resolve, reject,
                console, delete_pending)
    | constructor; intros
    | match goal with |- Sync (match ?x with _ => _ end) => destruct x end
    | match goal with |- Sync (if ?x then _ else _) => destruct x end ].

Lemma Sync_handleMessage (data : text) : Sync (handleMessage data).
Proof. unfold handleMessage. sync. Qed.

(** ** Programs that keep the presence fields *)

Section Safety.
Context (P : bool * Z * Q * option N -> Prop).

Lemma Safe_bind {A B : Type} (m : Async A) (f : A -> Async B) :
  Safe P m -> (forall a, Safe P (f a)) -> Safe P (bind m f).
Proof. intros Hm Hf. induction Hm; simpl; try constructor; auto. Qed.

Lemma Safe_try_catch {A : Type} (m : Async A) (h : Error -> Async A) :
  Safe P m -> (forall e, Safe P (h e)) -> Safe P (try_catch m h).
Proof. intros Hm Hh. induction Hm; simpl; try constructor; auto. Qed.

Lemma Safe_exec {A : Type} (m : Async A) (r : Runtime) :
  Safe P m -> P (presence (this r)) ->
  P (presence (this (exec m r).2)) /\
  forall p k, (exec m r).1 = Blocked p k -> forall o, Safe P (k o).
Proof.
  intros Hm. revert r.
  induction Hm; intros r Hr; simpl;
    try (split; [assumption|congruence]);
    try (first [apply IHHm | apply H0]; cbn; rewrite ?this_settle; auto; fail).
  - split; [assumption|]. intros q k' [= -> ->]. assumption.
  - destruct (url_ok r url); apply H0; assumption.
Qed.

Lemma Safe_lift {A : Type} (x : Error + A) : Safe P (lift x).
Proof. destruct x; constructor. Qed.

Lemma Safe_for_of {A : Type} (l : list A) (body : A -> Async unit) :
  (forall x, Safe P (body x)) -> Safe P (for_of l body).
Proof.
  intros H. induction l as [|x l IH]; simpl; [constructor|].
  apply Safe_bind; auto.
Qed.

End Safety.

Create HintDb safe.

(** Breaks a program into its operations; programs already known to be safe
    are taken from the hint database. *)
Ltac safe :=
  repeat first
    [ solve [auto with safe nocore]
    | apply Safe_lift
    | apply Safe_for_of; intros
    | apply Safe_bind; [|intros]
    | apply Safe_try_catch; [|intros]
    | progress (unfold mbind, mret, Async_bind, Async_ret, read, assign, resolve, reject,
                console, delete_pending, new_promise, new_WebSocket, ready_state, ws_send,
                ws_close, listen, setTimeout, clearTimeout, date_now, await)
    | apply Safe_Assign; [intros ? ?; assumption|]
    | constructor; intros
    | match goal with |- Safe _ (match ?x with _ => _ end) => destruct x end
    | match goal with |- Safe _ (if ?x then _ else _) => destruct x end ].

Lemma Safe_isConnected P : Safe P isConnected.
Proof. unfold isConnected. safe. Qed.
#[local] Hint Resolve Safe_isConnected : safe.

Lemma Safe_send P (msgType : string) (payload : list (string * JSON)) :
  Safe P (send msgType payload).
Proof. unfold send, nextId. safe. Qed.
#[local] Hint Resolve Safe_send : safe.

Lemma Safe_handleMessage P (data : text) : Safe P (handleMessage data).
Proof. unfold handleMessage, route. safe. Qed.

Lemma Safe_ontimeout P (p : promise) : Safe P (ontimeout p).
Proof. unfold ontimeout. safe. Qed.

Lemma Safe_onopen P (t : timer) (p : promise) : Safe P (onopen t p).
Proof. unfold onopen. safe. Qed.

Lemma Safe_onerror P (t : timer) (p : promise) : Safe P (onerror t p).
Proof. unfold onerror. safe. Qed.

Lemma Safe_onclose P : Safe P onclose.
Proof. unfold onclose. safe. Qed.

Lemma Safe_connect P : Safe P connect.
Proof. unfold connect, connect_executor. safe. Qed.
#[local] Hint Resolve Safe_connect : safe.

Lemma Safe_disconnect P : Safe P disconnect.
Proof. unfold disconnect. safe. Qed.
#[local] Hint Resolve Safe_disconnect : safe.

Lemma Safe_wait_for_device P (n : nat) : Safe P (wait_for_device n).
Proof. induction n; simpl; [constructor|]. unfold sleep. safe. Qed.
#[local] Hint Resolve Safe_wait_for_device : safe.

Lemma Safe_ensureConnected P : Safe P ensureConnected.
Proof. unfold ensureConnected. safe. Qed.
#[local] Hint Resolve Safe_ensureConnected : safe.

Lemma Safe_vibrate P (i : Z) (x : Q) (motor : option Z) : Safe P (vibrate i x motor).
Proof. unfold vibrate. safe. Qed.
#[local] Hint Resolve Safe_vibrate : safe.

Lemma Safe_stop P (i : Z) : Safe P (stop i).
Proof. unfold stop. safe. Qed.
#[local] Hint Resolve Safe_stop : safe.

Lemma Safe_stopAll P : Safe P stopAll.
Proof. unfold stopAll. safe. Qed.
#[local] Hint Resolve Safe_stopAll : safe.

Lemma Safe_getBattery P (i : Z) : Safe P (getBattery i).
Proof. unfold getBattery. safe. Qed.
#[local] Hint Resolve Safe_getBattery : safe.

Lemma Safe_onSessionStateMessage P (m : ServerMessage) : Safe P (onSessionStateMessage m).
Proof. unfold onSessionStateMessage. safe. Qed.
#[local] Hint Resolve Safe_onSessionStateMessage : safe.

Lemma Safe_setState (a : bool) (d : option Z) (s : option Q) :
  Safe since_iff_active (setState a d s).
Proof.
  unfold setState. unfold mbind, Async_bind, read. cbn [bind].
  constructor. intros o Ho. unfold since_iff_active in Ho. cbn in Ho.
  destruct a, (active o) eqn:E; cbn [bind mret Async_ret date_now negb Bool.eqb].
  - apply Safe_Assign; [intros; unfold since_iff_active; cbn; tauto|]. constructor.
  - constructor. intros t.
    apply Safe_Assign; [intros; unfold since_iff_active; cbn; split; congruence|]. safe.
  - apply Safe_Assign; [intros; unfold since_iff_active; cbn; split; congruence|]. safe.
  - apply Safe_Assign; [intros; unfold since_iff_active; cbn; split; congruence|]. constructor.
Qed.
#[local] Hint Resolve Safe_setState : safe.

Lemma Safe_body (c : Call) : Safe since_iff_active (body c).
Proof. destruct c; cbn [body]; unfold start, toggle, restore; safe. Qed.
#[local] Hint Resolve Safe_body : safe.

Lemma Safe_task (c : Call) (result : promise) : Safe since_iff_active (task c result).
Proof. unfold task. safe. Qed.

Lemma Safe_on_callback (cb : Callback) : Safe since_iff_active (on_callback cb).
Proof. destruct cb; cbn; [apply Safe_ontimeout|constructor; constructor]. Qed.

(** [exec] leaves the presence fields alone when the program does. *)
Lemma exec_frame {A : Type} (m : Async A) (r : Runtime) :
  (forall P, Safe P m) -> presence (this (exec m r).2) = presence (this r).
Proof.
  intros H.
  destruct (Safe_exec (fun x => x = presence (this r)) m r (H _) eq_refl) as [E _].
  exact E.
Qed.

(** ** The loop keeps the invariant of the presence state *)

Lemma wake_ok (ps : list promise) (r : Runtime) w q :
  Forall (fun pk => forall o, Safe since_iff_active (pk.2 o)) w ->
  Forall (Safe since_iff_active) q ->
  Forall (fun pk => forall o, Safe since_iff_active (pk.2 o)) (wake ps r w q).1 /\
  Forall (Safe since_iff_active) (wake ps r w q).2.
Proof.
  revert w q. induction ps as [|p ps IH]; intros w q Hw Hq; simpl; [auto|].
  destruct (state_of r p) as [o|]; [|auto].
  apply IH.
  - unfold still_waiting. apply Forall_filter_keep. assumption.
  - apply Forall_app. split; [assumption|].
    unfold reactions. induction Hw as [|[p' k] w Hk Hw IHw]; simpl; [constructor|].
    cbn in *. destruct (Nat.eqb p' p); [constructor|]; auto.
Qed.

Lemma run_task_ok (t : Async unit) (l : Loop) :
  Safe since_iff_active t -> presence_ok l -> presence_ok (run_task t l).
Proof.
  intros Ht (Hi & Hw & Hq). unfold run_task.
  destruct (Safe_exec since_iff_active t (rt l) Ht Hi) as [Hi' Hk].
  destruct (exec t (rt l)) as [st r]. cbn in Hi', Hk.
  destruct (wake_ok (settled r) r (waiting l) (ready l) Hw Hq) as [Hw' Hq'].
  destruct (wake (settled r) r (waiting l) (ready l)) as [w q]. cbn in Hw', Hq'.
  destruct st as [[]|e|p k]; try (split; [exact Hi'|split; assumption]).
  destruct (state_of _ p) as [o|]; (split; [exact Hi'|split]); cbn; auto.
  - apply Forall_app. split; [assumption|]. constructor; [|constructor]. eapply Hk; reflexivity.
  - apply Forall_app. split; [assumption|]. constructor; [|constructor]. cbn. eapply Hk; reflexivity.
Qed.

Lemma with_rt_ok (f : Runtime -> Runtime) (l : Loop) :
  (forall r, this (f r) = this r) -> presence_ok l -> presence_ok (with_rt (f (rt l)) l).
Proof. intros Hf (Hi & Hw & Hq). split; [cbn; rewrite Hf; exact Hi|split; assumption]. Qed.

Lemma step_ok (ev : Event) (l l' : Loop) :
  presence_ok l -> step ev l = Some l' -> presence_ok l'.
Proof.
  intros Hl. pose proof Hl as (Hi & Hw & Hq). unfold step.
  destruct ev, (ready l) as [|task0 rest] eqn:Er; try discriminate.
  - intros [= <-]. apply run_task_ok; [apply Safe_task|].
    apply (with_rt_ok (fun r => with_promises (promises r ++ [None]) (settled r) r)); auto.
  - destruct (sockets (rt l) !! s) as [sk|]; [|discriminate]. cbn [mbind option_bind].
    destruct (readyState sk); try discriminate. intros [= <-].
    destruct (listeners sk) as [[t p]|]; [apply run_task_ok; [apply Safe_onopen|]|];
      apply (with_rt_ok (fun r => with_sockets _ r)); auto.
  - destruct (sockets (rt l) !! s) as [sk|]; [|discriminate]. cbn [mbind option_bind].
    destruct (readyState sk); try discriminate; intros [= <-];
    (destruct (listeners sk) as [[t p]|]; [apply run_task_ok; [apply Safe_handleMessage|]|];
     assumption).
  - destruct (sockets (rt l) !! s) as [sk|]; [|discriminate]. cbn [mbind option_bind].
    destruct (gone sk); [discriminate|]. intros [= <-].
    destruct (listeners sk) as [[t p]|]; [apply run_task_ok; [apply Safe_onerror|]|];
      apply (with_rt_ok (fun r => with_sockets _ r)); auto.
  - destruct (sockets (rt l) !! s) as [sk|]; [|discriminate]. cbn [mbind option_bind].
    destruct (gone sk); [discriminate|]. intros [= <-].
    destruct (listeners sk) as [[t p]|]; [apply run_task_ok; [apply Safe_onclose|]|];
      apply (with_rt_ok (fun r => with_sockets _ r)); auto.
  - intros [= <-]. apply (with_rt_ok (fun r => with_clock _ r)); auto.
  - destruct (timers (rt l) !! t) as [tm|]; [|discriminate]. cbn [mbind option_bind].
    destruct (armed tm && (due tm <=? clock (rt l))%N); [|discriminate]. intros [= <-].
    apply run_task_ok; [apply Safe_on_callback|].
    apply (with_rt_ok (fun r => with_timers _ r)); auto.
  - intros [= <-]. inversion Hq; subst.
    apply run_task_ok; [assumption|]. split; [exact Hi|split; [exact Hw|assumption]].
Qed.

Lemma reachable_presence_ok (l : Loop) : reachable l -> presence_ok l.
Proof.
  induction 1 as [url ok|l ev l' _ IH Hs].
  - split; [|split; constructor]. unfold since_iff_active. cbn. split; [congruence|discriminate].
  - eapply step_ok; eassumption.
Qed.

Lemma drain_reachable (fuel : nat) (l : Loop) : reachable l -> reachable (drain fuel l).
Proof.
  revert l. induction fuel as [|fuel IH]; intros l Hl; cbn [drain]; [exact Hl|].
  destruct (step Microtask l) as [l'|] eqn:E; [|exact Hl].
  apply IH. eapply reachable_step; eassumption.
Qed.

Lemma run_reachable (evs : list Event) (l l' : Loop) :
  reachable l -> run evs l = Some l' -> reachable l'.
Proof.
  revert l. induction evs as [|ev evs IH]; intros l Hl; cbn [run].
  - intros [= <-]. exact Hl.
  - unfold deliver. destruct (step ev l) as [l1|] eqn:E; [|discriminate].
    cbn [mbind option_bind].
    apply IH. apply drain_reachable. eapply reachable_step; eassumption.
Qed.

Lemma drain_idle (fuel : nat) (l : Loop) : ready l = [] -> drain fuel l = l.
Proof. intros H. destruct fuel; [reflexivity|]. cbn [drain step]. rewrite H. reflexivity. Qed.

(** ** The presence controller *)

Lemma setState_presence (a : bool) (d : option Z) (s : option Q) (r : Runtime) :
  presence (this (exec (setState a d s) r).2) =
  (a, default 0 d, default DEFAULT_STRENGTH s,
   if a then if active (this r) then since (this r) else Some (clock r) else None).
Proof.
  unfold setState. unfold mbind, Async_bind, read. cbn [bind exec].
  destruct a, (active (this r)) eqn:E;
    cbn [bind mret Async_ret date_now negb Bool.eqb exec assign]; try reflexivity.
  - match goal with |- context [exec ?m ?r'] => rewrite (exec_frame m r') end; [reflexivity|].
    intros P. safe.
  - match goal with |- context [exec ?m ?r'] => rewrite (exec_frame m r') end; [reflexivity|].
    intros P. safe.
Qed.

Lemma start_setState (d : option Z) (s : option Q) : start d s = setState true d s.
Proof. unfold start, setState. destruct d, s; reflexivity. Qed.

(** C5: in every reachable state [since] is set exactly when [active] is;
    [setState] sets [since] to the current time on a transition from idle to
    active, clears it on a transition to idle and keeps it when already
    active, so [start] while active does not reset the timestamp. *)
Theorem since_set_iff_active (l : Loop) :
  reachable l ->
  (since (this (rt l)) <> None <-> active (this (rt l)) = true) /\
  (forall a d s,
     let o := this (rt l) in
     let o' := this (exec (setState a d s) (rt l)).2 in
     active o' = a /\
     since o' = if a then if active o then since o else Some (clock (rt l)) else None) /\
  (forall d s,
     active (this (rt l)) = true ->
     since (this (exec (start d s) (rt l)).2) = since (this (rt l))).
Proof.
  intros Hl. split; [|split].
  - apply (reachable_presence_ok l Hl).
  - intros a d s o o'. pose proof (setState_presence a d s (rt l)) as E.
    split.
    + change (active o') with (presence o').1.1.1. unfold o'. rewrite E. reflexivity.
    + change (since o') with (presence o').2. unfold o'. rewrite E. reflexivity.
  - intros d s Ha. rewrite start_setState.
    pose proof (setState_presence true d s (rt l)) as E.
    match goal with |- since ?x = _ => change (since x) with (presence x).2 end.
    rewrite E. cbn. rewrite Ha. reflexivity.
Qed.

(** The state after [start()] on a new client: active since time 0. *)
Lemma since_set_iff_active_witness :
  let l := after [Invoke (call_start None None)] in
  reachable l /\
  active (this (rt l)) = true /\
  since (this (rt l)) = Some 0%N /\
  (since (this (rt l)) <> None <-> active (this (rt l)) = true) /\
  (forall d s, since (this (exec (start d s) (rt l)).2) = Some 0%N).
Proof.
  intros l.
  assert (Hl : reachable l).
  { apply (run_reachable [Invoke (call_start None None)] l0 l (reachable_boot _ _)).
    vm_compute. reflexivity. }
  destruct (since_set_iff_active l Hl) as (H1 & _ & H3).
  split; [exact Hl|]. split; [reflexivity|]. split; [reflexivity|]. split; [exact H1|].
  intros d s. exact (H3 d s eq_refl).
Defined.

(** C10: [restore] changes nothing: the presence fields keep their values and
    the runtime is left as it was (no frame sent, no line logged, no socket
    opened), for a presence state in which [since] is set exactly when
    [active] is. *)
Theorem restore_is_identity (r : Runtime) :
  (since (this r) <> None <-> active (this r) = true) ->
  exec restore r = (Done tt, r).
Proof.
  intros H. unfold restore, setState. unfold mbind, Async_bind, read. cbn [bind exec default].
  assert (E : set_presence (active (this r)) (device (this r)) (strength (this r))
                (if active (this r) then since (this r) else None) (this r) = this r).
  { destruct (this r) as [? ? ? ? ? ? a ? ? t ?]. cbn in *. destruct a; [reflexivity|].
    destruct t; [|reflexivity]. exfalso.
    assert (false = true) by (apply H; discriminate). discriminate. }
  destruct (active (this r)) eqn:Ea;
    cbn [bind mret Async_ret negb Bool.eqb exec assign];
    unfold with_this, id; rewrite E; destruct r; reflexivity.
Qed.

Lemma restore_is_identity_witness :
  let r := rt (after [Invoke (call_start None None)]) in
  (since (this r) <> None <-> active (this r) = true) /\
  exec restore r = (Done tt, r).
Proof.
  intros r.
  assert (H : since (this r) <> None <-> active (this r) = true).
  { vm_compute. split; [reflexivity|discriminate]. }
  split; [exact H|]. exact (restore_is_identity r H).
Defined.

(** ** Device descriptors *)

Lemma capability_describes {A : Type} (StepCount : A -> Z) (g : option (list A)) :
  describes StepCount (default [] g) (capability StepCount g).
Proof.
  destruct g as [[|x l]|]; simpl; split; try tauto; try (intros m [=]);
    try (split; [intros [=]|intros [=]]).
  subst m; auto.
Qed.

(** C7: a capability is present exactly when its actuator group is not
    empty (for [vibrate], the scalar entries of type "Vibrate"); when present
    it holds the length of the group and the step counts in source order. *)
Theorem parseDevice_capabilities (d : DeviceMessage) :
  let c := capabilities (parseDevice d) in
  let m := DeviceMessages_ d in
  index (parseDevice d) = DeviceIndex d /\
  name (parseDevice d) = DeviceName d /\
  describes Scalar.StepCount
    (filter (fun s => Scalar.ActuatorType s = "Vibrate") (default [] (ScalarCmd m)))
    (Cap.vibrate c) /\
  describes Motor.StepCount (default [] (RotateCmd m)) (Cap.rotate c) /\
  describes Motor.StepCount (default [] (LinearCmd m)) (Cap.linear c).
Proof.
  simpl. split; [reflexivity|]. split; [reflexivity|].
  split; [|split; apply capability_describes].
  destruct (ScalarCmd (DeviceMessages_ d)) as [l|]; simpl.
  - apply (capability_describes Scalar.StepCount (Some (filter _ l))).
  - apply (capability_describes Scalar.StepCount None).
Qed.

(** ** Requests on an open connection *)

Lemma exec_isConnected (r : Runtime) : exec isConnected r = (Done (connected r), r).
Proof. unfold isConnected, connected. cbn. destruct (ws (this r)); reflexivity. Qed.

Lemma connected_open (r : Runtime) (s : socket) (sk : Socket) :
  ws (this r) = Some s -> sockets r !! s = Some sk -> readyState sk = OPEN ->
  readyState_of r s = OPEN /\ connected r = true.
Proof.
  intros Hws Hsk Hopen.
  assert (Hst : readyState_of r s = OPEN) by (unfold readyState_of; rewrite Hsk; exact Hopen).
  split; [exact Hst|]. unfold connected. rewrite Hws, Hst. reflexivity.
Qed.

Lemma connected_inv (r : Runtime) :
  connected r = true -> exists s, ws (this r) = Some s /\ readyState_of r s = OPEN.
Proof.
  unfold connected. destruct (ws (this r)) as [s|]; [|discriminate].
  intros H. exists s. split; [reflexivity|].
  destruct (readyState_of r s); try discriminate. reflexivity.
Qed.

Lemma exec_wait_for_device_ready (n : nat) (r : Runtime) :
  (0 < size (devices (this r)))%nat -> exec (wait_for_device n) r = (Done tt, r).
Proof.
  intros H. destruct n; [reflexivity|]. cbn.
  destruct (size (devices (this r))); [lia|reflexivity].
Qed.

Lemma exec_ensureConnected_ready (r : Runtime) :
  connected r = true -> (0 < size (devices (this r)))%nat ->
  exec ensureConnected r = (Done tt, r).
Proof.
  intros Hc Hd. unfold ensureConnected, mbind, Async_bind.
  rewrite exec_bind, exec_isConnected, Hc. cbn -[wait_for_device].
  apply exec_wait_for_device_ready; assumption.
Qed.

Lemma exec_send_connected (msgType : string) (payload : list (string * JSON))
    (r : Runtime) (s : socket) :
  ws (this r) = Some s -> readyState_of r s = OPEN ->
  exec (send msgType payload) r = (Done (length (promises r)), after_send msgType payload s r).
Proof.
  intros Hws Hst. unfold send, isConnected. cbn. rewrite Hws. cbn.
  unfold readyState_of in *. cbn. rewrite Hst. cbn. rewrite Hws. reflexivity.
Qed.

Lemma exec_send_disconnected (msgType : string) (payload : list (string * JSON)) (r : Runtime) :
  connected r = false ->
  exec (send msgType payload) r =
  (Done (length (promises r)),
   settle (length (promises r)) (Rejected NotConnected)
     (with_promises (promises r ++ [None]) (settled r) r)).
Proof.
  intros Hc. unfold send, mbind, Async_bind. cbn [new_promise bind exec].
  rewrite exec_bind.
  set (r0 := with_promises _ _ r).
  assert (Hc0 : connected r0 = false) by exact Hc.
  rewrite exec_isConnected, Hc0. reflexivity.
Qed.

Lemma sent_after_send (msgType : string) (payload : list (string * JSON)) (r : Runtime)
    (s : socket) (sk : Socket) :
  sockets r !! s = Some sk -> readyState sk = OPEN ->
  sent <$> sockets (after_send msgType payload s r) !! s =
  Some (sent sk ++ [wrap msgType (messageId (this r)) payload]).
Proof.
  intros Hsk Hopen. cbn. rewrite list_lookup_alter_eq, Hsk. cbn.
  unfold socket_send. rewrite Hopen. reflexivity.
Qed.

(** ** The actuation layer *)




Lemma exec_vibrate_connected (r : Runtime) (s : socket) (i : Z) (dev : IntifaceDevice)
    (v : MotorSpec) (x : Q) (motor : option Z) :
  ws (this r) = Some s -> readyState_of r s = OPEN ->
  devices (this r) !! i = Some dev -> Cap.vibrate (capabilities dev) = Some v ->
  exists k,
    exec (vibrate i x motor) r =
      (Blocked (length (promises r)) k,
       after_send "ScalarCmd"
         [("DeviceIndex", num i);
          ("Scalars", JArr (push_scalars (motors v) 0 (clamp x) motor []))] s r) /\
    passes_on k tt.
Proof.
  intros Hws Hst Hdev Hcap.
  assert (Hc : connected r = true) by (unfold connected; rewrite Hws, Hst; reflexivity).
  unfold vibrate, mbind, Async_bind.
  rewrite exec_bind, exec_ensureConnected_ready by eauto using size_pos_of_lookup.
  cbn [bind read exec]. rewrite Hdev, Hcap.
  rewrite exec_bind, (exec_send_connected _ _ r s Hws Hst).
  cbn [bind await exec]. eexists. split; [reflexivity|]. split; reflexivity.
Qed.

Lemma exec_stop_connected (r : Runtime) (s : socket) (i : Z) (dev : IntifaceDevice) :
  ws (this r) = Some s -> readyState_of r s = OPEN ->
  devices (this r) !! i = Some dev ->
  exists k,
    exec (stop i) r =
      (Blocked (length (promises r)) k,
       after_send "StopDeviceCmd" [("DeviceIndex", num i)] s r) /\
    passes_on k tt.
Proof.
  intros Hws Hst Hdev.
  assert (Hc : connected r = true) by (unfold connected; rewrite Hws, Hst; reflexivity).
  unfold stop, mbind, Async_bind.
  rewrite exec_bind, exec_ensureConnected_ready by eauto using size_pos_of_lookup.
  cbn [bind read exec]. rewrite Hdev.
  rewrite exec_bind, (exec_send_connected _ _ r s Hws Hst).
  cbn [bind await exec]. eexists. split; [reflexivity|]. split; reflexivity.
Qed.



(** ** The message codec *)

Lemma handleMessage_array (items : list JSON) (r : Runtime) :
  exec (handleMessage (JSONText (JArr items))) r =
  match exec (for_of items route) r with
  | (Done a, r') => (Done a, r')
  | (Threw e, r') => (Done tt, with_output (output r' ++ [error_FailedToParse e]) r')
  | (Blocked p k, r') =>
      (Blocked p (fun o => try_catch (k o) (fun err => console (error_FailedToParse err))), r')
  end.
Proof.
  unfold handleMessage. rewrite exec_try_catch.
  cbn [JSON_parse lift iterate mbind Async_bind bind].
  destruct (exec (for_of items route) r) as [[a|e|p k] r']; reflexivity.
Qed.

(** C3, as the code has it: [handleMessage] never throws and never suspends.
    Text that is not JSON is logged as a failure and changes nothing else; an
    empty sequence is a silent no-op; of a multi-key object the first
    property alone is routed, without a failure; the entries of a batch are
    routed in order, and an entry that throws is logged and ends the batch:
    what the entries before it did stays, the entries after it are dropped. *)
Theorem handleMessage_never_throws :
  (forall data r, exists r', exec (handleMessage data) r = (Done tt, r')) /\
  (forall raw r,
     exec (handleMessage (NotJSON raw)) r =
     (Done tt, with_output (output r ++ [error_FailedToParse SyntaxError]) r)) /\
  (forall r, exec (handleMessage (JSONText (JArr []))) r = (Done tt, r)) /\
  (forall key content more rest r,
     exec (handleMessage (JSONText (JArr (JObj ((key, content) :: more) :: rest)))) r =
     exec (handleMessage (JSONText (JArr (JObj [(key, content)] :: rest)))) r) /\
  (forall msg rest r r',
     exec (route msg) r = (Done tt, r') ->
     exec (handleMessage (JSONText (JArr (msg :: rest)))) r =
     exec (handleMessage (JSONText (JArr rest))) r') /\
  (forall msg rest r e r',
     exec (route msg) r = (Threw e, r') ->
     exec (handleMessage (JSONText (JArr (msg :: rest)))) r =
     (Done tt, with_output (output r' ++ [error_FailedToParse e]) r')).
Proof.
  split; [|split; [|split; [|split; [|split]]]].
  - intros data r. unfold handleMessage. rewrite exec_try_catch.
    match goal with |- context [exec ?m r] =>
      pose proof (Sync_exec m r) as Hs; destruct (exec m r) as [[[]|e|p k] r'] end.
    + eauto.
    + cbn. eauto.
    + exfalso. eapply Hs; [|reflexivity]. sync.
  - reflexivity.
  - reflexivity.
  - intros. rewrite !handleMessage_array, !exec_for_of_cons. reflexivity.
  - intros msg rest r r' H. rewrite !handleMessage_array, exec_for_of_cons, H. reflexivity.
  - intros msg rest r e r' H. rewrite !handleMessage_array, exec_for_of_cons, H. reflexivity.
Qed.

(** A batch of an empty object and a [DeviceAdded] entry, on a new client. *)
Lemma handleMessage_never_throws_witness :
  let r := rt l0 in
  let batch := [JObj []; JObj [("DeviceAdded", toy)]] in
  exec (route (JObj [])) r = (Threw TypeError, r) /\
  exec (handleMessage (JSONText (JArr batch))) r =
    (Done tt, with_output (output r ++ [error_FailedToParse TypeError]) r).
Proof.
  intros r batch.
  assert (H : exec (route (JObj [])) r = (Threw TypeError, r)) by reflexivity.
  split; [exact H|].
  destruct handleMessage_never_throws as (_ & _ & _ & _ & _ & Hthrow).
  exact (Hthrow (JObj []) [JObj [("DeviceAdded", toy)]] r TypeError r H).
Defined.

(** Three frames on the socket of a client that awaits the answer to its
    first request: an empty sequence leaves the console as it was; an object
    with the keys [ServerInfo] and [Error] is taken as [ServerInfo] (the
    handshake goes on with its second request) and nothing is logged; an
    empty object in front of a [DeviceAdded] entry is logged and the device
    is not registered. *)
Lemma handleMessage_malformed_frames :
  let l := after [Invoke call_connect; Opened 0%nat] in
  let received (j : JSON) := default l (deliver (Received 0%nat (JSONText j)) l) in
  let two_keys := JObj [("ServerInfo", JObj [("Id", num 1)]); ("Error", JObj [("Id", num 1)])] in
  output (rt l) = [log_Connecting url0; log_WebSocketConnected] /\
  output (rt (received (JArr []))) = output (rt l) /\
  output (rt (received (JArr [two_keys]))) = output (rt l) ++ [log_HandshakeComplete] /\
  (sent <$> sockets (rt (received (JArr [two_keys]))) !! 0%nat) =
    Some [wrap "RequestServerInfo" 1
            [("ClientName", JStr "Familiar"); ("MessageVersion", num 3)];
          wrap "RequestDeviceList" 2 []] /\
  output (rt (received (JArr [JObj []; JObj [("DeviceAdded", toy)]]))) =
    output (rt l) ++ [error_FailedToParse TypeError] /\
  devices (this (rt (received (JArr [JObj []; JObj [("DeviceAdded", toy)]])))) = ∅.
Proof. vm_compute. repeat split; reflexivity. Qed.

(** ** The battery query *)

(** C1, as the code has it: with the connection up and a registry that is
    not empty, [getBattery] throws [DeviceNotFound] for an index that is not
    registered; for a registered one it sends [BatteryLevelCmd] and awaits
    the answer, and any rejection of that request gives [null]; an answer
    gives its [BatteryLevel].  Without a connection it waits for the attempt
    in flight, and throws the failure of that attempt. *)
Theorem getBattery_null_on_request_failure (r : Runtime) (s : socket) (deviceIndex : Z) :
  ws (this r) = Some s ->
  readyState_of r s = OPEN ->
  (0 < size (devices (this r)))%nat ->
  match devices (this r) !! deviceIndex with
  | None => exec (getBattery deviceIndex) r = (Threw (DeviceNotFound deviceIndex), r)
  | Some _ =>
      exists k,
        exec (getBattery deviceIndex) r =
          (Blocked (length (promises r)) k,
           after_send "BatteryLevelCmd" [("DeviceIndex", num deviceIndex)] s r) /\
        (forall e r', exec (k (Rejected e)) r' = (Done (Some JNull), r')) /\
        (forall content r',
           exec (k (Fulfilled (Some content))) r' =
           (Done match prop content "BatteryLevel" with
                 | inr level => level
                 | inl _ => Some JNull
                 end, r'))
  end /\
  (forall r0 p,
     connected r0 = false ->
     connectionPromise (this r0) = Some p ->
     exists k,
       exec (getBattery deviceIndex) r0 = (Blocked p k, r0) /\
       forall e r', exec (k (Rejected e)) r' = (Threw e, r')).
Proof.
  intros Hws Hst Hsize. split.
  - assert (Hc : connected r = true) by (unfold connected; rewrite Hws, Hst; reflexivity).
    unfold getBattery, mbind, Async_bind.
    rewrite exec_bind, exec_ensureConnected_ready by assumption.
    cbn [read bind exec].
    destruct (devices (this r) !! deviceIndex) as [dev|]; [|reflexivity].
    rewrite exec_try_catch, exec_bind, (exec_send_connected _ _ r s Hws Hst).
    cbn [await bind exec]. eexists. split; [reflexivity|]. split.
    + intros e r'. reflexivity.
    + intros content r'. cbn. destruct (prop content "BatteryLevel"); reflexivity.
  - intros r0 p Hc Hp.
    unfold getBattery, ensureConnected, connect, mbind, Async_bind.
    rewrite !exec_bind, exec_isConnected, Hc. cbn [negb].
    rewrite !exec_bind, exec_isConnected, Hc. cbn [read bind exec]. rewrite Hp.
    cbn [await bind exec]. eexists. split; [reflexivity|].
    intros e r'. reflexivity.
Qed.

(** On the session: device 0 is registered, device 7 is not; and on a client
    whose first attempt is in flight. *)
Lemma getBattery_null_on_request_failure_witness :
  let r := rt (after handshake) in
  let r0 := rt (after [Invoke call_connect]) in
  ws (this r) = Some 0%nat /\
  readyState_of r 0%nat = OPEN /\
  (0 < size (devices (this r)))%nat /\
  exec (getBattery 7) r = (Threw (DeviceNotFound 7), r) /\
  (exists k,
     exec (getBattery 0) r =
       (Blocked (length (promises r)) k,
        after_send "BatteryLevelCmd" [("DeviceIndex", num 0)] 0%nat r) /\
     forall e r', exec (k (Rejected e)) r' = (Done (Some JNull), r')) /\
  connected r0 = false /\
  connectionPromise (this r0) = Some 1%nat /\
  exists k,
    exec (getBattery 0) r0 = (Blocked 1%nat k, r0) /\
    forall e r', exec (k (Rejected e)) r' = (Threw e, r').
Proof.
  intros r r0.
  assert (Hws : ws (this r) = Some 0%nat) by (vm_compute; reflexivity).
  assert (Hst : readyState_of r 0%nat = OPEN) by (vm_compute; reflexivity).
  assert (Hsize : (0 < size (devices (this r)))%nat) by (vm_compute; lia).
  assert (H7 : devices (this r) !! 7 = None) by (vm_compute; reflexivity).
  assert (H0 : devices (this r) !! 0 = Some toy_device) by (vm_compute; reflexivity).
  assert (Hc : connected r0 = false) by (vm_compute; reflexivity).
  assert (Hp : connectionPromise (this r0) = Some 1%nat) by (vm_compute; reflexivity).
  pose proof (getBattery_null_on_request_failure r 0%nat 7 Hws Hst Hsize) as [H _].
  pose proof (getBattery_null_on_request_failure r 0%nat 0 Hws Hst Hsize) as [H' H''].
  rewrite H7 in H. rewrite H0 in H'.
  split; [exact Hws|]. split; [exact Hst|]. split; [exact Hsize|]. split; [exact H|].
  split.
  - destruct H' as (k & Ek & Hk & _). exists k. split; [exact Ek|exact Hk].
  - split; [exact Hc|]. split; [exact Hp|]. exact (H'' r0 1%nat Hc Hp).
Defined.

(** The promise of [getBattery] is rejected when the device is not in the
    registry, and when the connection cannot be made. *)
Lemma getBattery_throws :
  outcome_of_call handshake (call_getBattery 7) [] =
    Some (Some (Rejected (DeviceNotFound 7))) /\
  outcome_of_call [] (call_getBattery 0) [Errored 0%nat] =
    Some (Some (Rejected WebSocketError)).
Proof. vm_compute. split; reflexivity. Qed.

(** ** The work-signal bridge *)

Lemma bridge_sequence :
  transitions 0 (handshake ++ working_counts) l0 =
  [(2%nat, log_StartingVibration); (4%nat, log_StoppingVibration);
   (5%nat, log_StartingVibration); (6%nat, log_StoppingVibration)].
Proof. vm_compute. reflexivity. Qed.

(** C2, as the code has it: on an open connection with the target device
    registered, a notification sends a command exactly when its count and
    [lastWorkingCount] lie on different sides of zero: [ScalarCmd] on the way
    up, [StopDeviceCmd] on the way down, nothing otherwise (3 after 3, or 5
    after 3); with every command acknowledged before the next notification,
    the counts 0,0,3,3,0,5,0 trigger four transitions. *)
Theorem bridge_acts_on_edges_only (r : Runtime) (c : Z) (s : socket) (sk : Socket)
    (dev : IntifaceDevice) (v : MotorSpec) :
  ws (this r) = Some s ->
  sockets r !! s = Some sk ->
  readyState sk = OPEN ->
  devices (this r) !! device (this r) = Some dev ->
  Cap.vibrate (capabilities dev) = Some v ->
  let o := this r in
  let m := onSessionStateMessage (state c) in
  match Z.ltb 0 c, Z.ltb 0 (lastWorkingCount o) with
  | true, false =>
      exists q k r',
        exec m r = (Blocked q k, r') /\
        output r' = output r ++ [log_StartingVibration] /\
        lastWorkingCount (this r') = lastWorkingCount o /\
        sent <$> sockets r' !! s =
          Some (sent sk ++
                [wrap "ScalarCmd" (messageId o)
                   [("DeviceIndex", num (device o));
                    ("Scalars",
                     JArr (push_scalars (motors v) 0 (clamp (strength o)) None []))]])
  | false, true =>
      exists q k r',
        exec m r = (Blocked q k, r') /\
        output r' = output r ++ [log_StoppingVibration] /\
        lastWorkingCount (this r') = lastWorkingCount o /\
        sent <$> sockets r' !! s =
          Some (sent sk ++
                [wrap "StopDeviceCmd" (messageId o) [("DeviceIndex", num (device o))]])
  | _, _ => exec m r = (Done tt, with_this (set_lastWorkingCount c) r)
  end /\
  transitions 0 (handshake ++ working_counts) l0 =
    [(2%nat, log_StartingVibration); (4%nat, log_StoppingVibration);
     (5%nat, log_StartingVibration); (6%nat, log_StoppingVibration)].
Proof.
  intros Hws Hsk Hopen Hdev Hcap o m. subst o m. split; [|exact bridge_sequence].
  destruct (connected_open r s sk Hws Hsk Hopen) as [Hst Hc].
  unfold onSessionStateMessage, mbind, Async_bind. cbn [read bind exec].
  destruct (Z.ltb_spec 0 c) as [Hc0|Hc0], (Z.ltb_spec 0 (lastWorkingCount (this r))) as [Hl0|Hl0];
    cbn [Bool.eqb negb andb]; rewrite ?andb_false_r; try reflexivity.
  - (* rising edge *)
    assert (E : (c =? lastWorkingCount (this r))%Z = false) by (apply Z.eqb_neq; lia).
    rewrite E. cbn [negb andb].
    rewrite exec_bind, exec_try_catch. cbn [console bind exec read].
    set (r1 := with_output (output r ++ [log_StartingVibration]) r).
    destruct (exec_vibrate_connected r1 s (device (this r)) dev v (strength (this r)) None
                Hws Hst Hdev Hcap) as (k & Ek & _).
    change (this r1) with (this r). rewrite Ek.
    do 3 eexists. split; [reflexivity|]. split; [reflexivity|]. split; [reflexivity|].
    apply (sent_after_send _ _ r1 s sk); assumption.
  - (* falling edge *)
    assert (E : (c =? lastWorkingCount (this r))%Z = false) by (apply Z.eqb_neq; lia).
    rewrite E. cbn [negb andb].
    rewrite exec_bind, exec_try_catch. cbn [console bind exec read].
    set (r1 := with_output (output r ++ [log_StoppingVibration]) r).
    destruct (exec_stop_connected r1 s (device (this r)) dev Hws Hst Hdev) as (k & Ek & _).
    change (this r1) with (this r). rewrite Ek.
    do 3 eexists. split; [reflexivity|]. split; [reflexivity|]. split; [reflexivity|].
    apply (sent_after_send _ _ r1 s sk); assumption.
Qed.

(** The first notification with a positive count, on the session. *)
Lemma bridge_acts_on_edges_only_witness :
  let r := rt (after handshake) in
  ws (this r) = Some 0%nat /\
  sockets r !! 0%nat = Some session_socket /\
  devices (this r) !! device (this r) = Some toy_device /\
  lastWorkingCount (this r) = 0 /\
  exec (onSessionStateMessage (state 0)) r = (Done tt, with_this (set_lastWorkingCount 0) r) /\
  exists q k r',
    exec (onSessionStateMessage (state 3)) r = (Blocked q k, r') /\
    output r' = output r ++ [log_StartingVibration] /\
    lastWorkingCount (this r') = lastWorkingCount (this r) /\
    sent <$> sockets r' !! 0%nat =
      Some (sent session_socket ++
            [wrap "ScalarCmd" (messageId (this r))
               [("DeviceIndex", num (device (this r)));
                ("Scalars",
                 JArr (push_scalars 3 0 (clamp (strength (this r))) None []))]]).
Proof.
  intros r.
  assert (Hws : ws (this r) = Some 0%nat) by (vm_compute; reflexivity).
  assert (Hsk : sockets r !! 0%nat = Some session_socket) by (vm_compute; reflexivity).
  assert (Hdev : devices (this r) !! device (this r) = Some toy_device)
    by (vm_compute; reflexivity).
  assert (Hlast : lastWorkingCount (this r) = 0) by (vm_compute; reflexivity).
  split; [exact Hws|]. split; [exact Hsk|]. split; [exact Hdev|]. split; [exact Hlast|].
  pose proof (fun c => proj1 (bridge_acts_on_edges_only r c 0%nat session_socket toy_device
                    {| motors := 3; steps := [20; 20; 10] |} Hws Hsk eq_refl Hdev eq_refl)) as H.
  cbv zeta in H.
  assert (E : (0 <? lastWorkingCount (this r))%Z = false) by (vm_compute; reflexivity).
  split.
  - specialize (H 0). rewrite E in H. exact H.
  - specialize (H 3). rewrite E in H. exact H.
Defined.

(** The counts 0,0,3,3,0,5,0 trigger four transitions, not three. *)
Lemma bridge_sequence_has_four_transitions :
  transitions 0 (handshake ++ working_counts) l0 =
    [(2%nat, log_StartingVibration); (4%nat, log_StoppingVibration);
     (5%nat, log_StartingVibration); (6%nat, log_StoppingVibration)] /\
  length (transitions 0 (handshake ++ working_counts) l0) = 4%nat.
Proof. rewrite bridge_sequence. split; reflexivity. Qed.

(** ** The connection manager: one attempt at a time *)

Lemma exec_connect_connected (r : Runtime) :
  connected r = true -> exec connect r = (Done tt, r).
Proof.
  intros Hc. unfold connect, mbind, Async_bind.
  rewrite exec_bind, exec_isConnected, Hc. reflexivity.
Qed.

Lemma exec_connect_joins (r : Runtime) (p : promise) :
  connected r = false -> connectionPromise (this r) = Some p ->
  exists k, exec connect r = (Blocked p k, r) /\ passes_on k tt.
Proof.
  intros Hc Hp. unfold connect, mbind, Async_bind.
  rewrite exec_bind, exec_isConnected, Hc. cbn [read bind exec]. rewrite Hp.
  cbn [await bind exec]. eexists. split; [reflexivity|]. split; reflexivity.
Qed.

Lemma exec_connect_fresh (r : Runtime) (url : string) :
  connected r = false -> connectionPromise (this r) = None ->
  wsUrl (this r) = Some url -> url <> "" -> url_ok r url = true ->
  exists k,
    exec connect r = (Blocked (length (promises r)) k, attempting url r) /\ passes_on k tt.
Proof.
  intros Hc Hp Hurl Hne Hok. unfold connect, mbind, Async_bind.
  rewrite exec_bind, exec_isConnected, Hc. cbn [read bind exec]. rewrite Hp.
  unfold connect_executor, mbind, Async_bind.
  cbn [new_promise read bind exec with_promises this]. rewrite Hurl.
  destruct url as [|c url]; [congruence|]. clear Hne.
  cbn [console new_WebSocket bind exec with_output with_promises url_ok]. rewrite Hok.
  cbn [assign setTimeout listen await bind exec].
  eexists. split.
  - f_equal. unfold attempting, with_this, with_sockets, with_timers, with_output, with_promises.
    cbn. rewrite alter_last. reflexivity.
  - split; reflexivity.
Qed.

Lemma run_task_blocked (t : Async unit) (l : Loop) (p : promise)
    (k : Outcome -> Async unit) (r' : Runtime) :
  exec t (rt l) = (Blocked p k, r') -> settled r' = [] -> state_of r' p = None ->
  run_task t l = {| rt := r'; waiting := waiting l ++ [(p, k)]; ready := ready l |}.
Proof.
  intros He Hs Hp. unfold run_task. rewrite He, Hs. cbn [wake]. cbv beta zeta iota.
  rewrite (with_promises_id r' Hs), Hp. reflexivity.
Qed.

Lemma connect_task_joins (r : Runtime) (p result : promise) :
  connected r = false -> connectionPromise (this r) = Some p ->
  exists k, exec (task call_connect result) r = (Blocked p k, r) /\ relays k result.
Proof.
  intros Hc Hp. destruct (exec_connect_joins r p Hc Hp) as (k & Ek & Hv & He).
  unfold task, body, mbind, Async_bind.
  rewrite exec_try_catch, !exec_bind, Ek. eexists. split; [reflexivity|].
  intros [v|e] r'; rewrite exec_try_catch, !exec_bind.
  - rewrite Hv. reflexivity.
  - rewrite He. reflexivity.
Qed.

Lemma connect_task_connected (r : Runtime) (result : promise) :
  connected r = true ->
  exec (task call_connect result) r = (Done tt, settle result (Fulfilled None) r).
Proof.
  intros Hc. unfold task, body, mbind, Async_bind.
  rewrite exec_try_catch, !exec_bind, (exec_connect_connected r Hc). reflexivity.
Qed.

Lemma step_connect_joins (l : Loop) (p : promise) :
  ready l = [] -> settled (rt l) = [] -> connected (rt l) = false ->
  connectionPromise (this (rt l)) = Some p -> state_of (rt l) p = None ->
  exists k,
    step (Invoke call_connect) l =
      Some {| rt := with_promises (promises (rt l) ++ [None]) [] (rt l);
              waiting := waiting l ++ [(p, k)];
              ready := [] |} /\
    relays k (length (promises (rt l))).
Proof.
  intros Hr Hs Hc Hp Hst. unfold step. rewrite Hr.
  set (r0 := with_promises (promises (rt l) ++ [None]) (settled (rt l)) (rt l)).
  destruct (connect_task_joins r0 p (length (promises (rt l))) Hc Hp) as (k & Ek & Hk).
  exists k. split; [|exact Hk].
  rewrite (run_task_blocked _ (with_rt r0 l) p k r0 Ek Hs (state_of_alloc _ _ _ Hst)).
  cbn. rewrite Hr. unfold r0. rewrite Hs. reflexivity.
Qed.

Lemma connect_joiners (l : Loop) (p : promise) (n : nat) :
  ready l = [] ->
  settled (rt l) = [] ->
  connected (rt l) = false ->
  connectionPromise (this (rt l)) = Some p ->
  state_of (rt l) p = None ->
  exists l' ks,
    run (replicate n (Invoke call_connect)) l = Some l' /\
    sockets (rt l') = sockets (rt l) /\
    this (rt l') = this (rt l) /\
    waiting l' = waiting l ++ map (pair p) ks /\
    Forall2 relays ks (seq (length (promises (rt l))) n).
Proof.
  revert l. induction n as [|n IH]; intros l Hr Hs Hc Hp Hst.
  - exists l, []. cbn. rewrite app_nil_r. repeat split; constructor.
  - destruct (step_connect_joins l p Hr Hs Hc Hp Hst) as (k & Ek & Hk).
    set (l1 := {| rt := with_promises (promises (rt l) ++ [None]) [] (rt l);
                  waiting := waiting l ++ [(p, k)]; ready := [] |}) in *.
    destruct (IH l1) as (l' & ks & Erun & Hsock & Hthis & Hw & Hks); try reflexivity.
    + exact Hc.
    + exact Hp.
    + apply state_of_alloc. exact Hst.
    + exists l', (k :: ks). cbn [replicate run]. unfold deliver. rewrite Ek.
      cbn [mbind option_bind]. rewrite drain_idle by reflexivity.
      split; [exact Erun|]. split; [exact Hsock|]. split; [exact Hthis|]. split.
      * rewrite Hw. cbn. rewrite <- app_assoc. reflexivity.
      * cbn. constructor; [exact Hk|].
        replace (S (length (promises (rt l)))) with (length (promises (rt l1))); [exact Hks|].
        cbn. rewrite length_app. cbn. lia.
Qed.

(** C8, as the code has it: while an attempt is in flight and the socket is
    not open, any number of [connect()] calls open no socket and change no
    field: each caller waits on the promise of the attempt and hands its
    outcome, fulfilled or the same rejection, to its own promise.  Once the
    socket is open [connect()] returns at once, whether or not the handshake
    is over.  With no socket open and no attempt in flight, [connect()] opens
    one socket and starts the attempt. *)
Theorem connect_coalesces_until_open (l : Loop) (p : promise) (n : nat) :
  ready l = [] ->
  settled (rt l) = [] ->
  connected (rt l) = false ->
  connectionPromise (this (rt l)) = Some p ->
  state_of (rt l) p = None ->
  (exists l' ks,
     run (replicate n (Invoke call_connect)) l = Some l' /\
     sockets (rt l') = sockets (rt l) /\
     this (rt l') = this (rt l) /\
     waiting l' = waiting l ++ map (pair p) ks /\
     Forall2 relays ks (seq (length (promises (rt l))) n)) /\
  (forall r result,
     connected r = true ->
     exec (task call_connect result) r = (Done tt, settle result (Fulfilled None) r)) /\
  (forall r url,
     connected r = false ->
     connectionPromise (this r) = None ->
     wsUrl (this r) = Some url ->
     url <> "" ->
     url_ok r url = true ->
     exists k,
       exec connect r = (Blocked (length (promises r)) k, attempting url r) /\
       sockets (attempting url r) = sockets r ++ [attempt_socket r] /\
       connectionPromise (this (attempting url r)) = Some (length (promises r))).
Proof.
  intros Hr Hs Hc Hp Hst. split; [|split].
  - apply connect_joiners; assumption.
  - intros r result Hcr. apply connect_task_connected. exact Hcr.
  - intros r url Hcr Hcp Hurl Hne Hok.
    destruct (exec_connect_fresh r url Hcr Hcp Hurl Hne Hok) as (k & Ek & _).
    exists k. split; [exact Ek|]. split; reflexivity.
Qed.

(** Three more callers while the first attempt waits for its socket. *)
Lemma connect_coalesces_until_open_witness :
  let l := after [Invoke call_connect] in
  ready l = [] /\
  settled (rt l) = [] /\
  connected (rt l) = false /\
  connectionPromise (this (rt l)) = Some 1%nat /\
  state_of (rt l) 1%nat = None /\
  exists l' ks,
    run (replicate 3 (Invoke call_connect)) l = Some l' /\
    sockets (rt l') = sockets (rt l) /\
    this (rt l') = this (rt l) /\
    waiting l' = waiting l ++ map (pair 1%nat) ks /\
    Forall2 relays ks (seq (length (promises (rt l))) 3).
Proof.
  intros l.
  assert (Hr : ready l = []) by (vm_compute; reflexivity).
  assert (Hs : settled (rt l) = []) by (vm_compute; reflexivity).
  assert (Hc : connected (rt l) = false) by (vm_compute; reflexivity).
  assert (Hp : connectionPromise (this (rt l)) = Some 1%nat) by (vm_compute; reflexivity).
  assert (Hst : state_of (rt l) 1%nat = None) by (vm_compute; reflexivity).
  repeat (split; [assumption|]).
  exact (proj1 (connect_coalesces_until_open l 1%nat 3 Hr Hs Hc Hp Hst)).
Defined.

(** A second caller while the handshake is in flight is answered at once, and
    sees success where the first caller sees the failure of the attempt. *)
Lemma connect_during_handshake_returns_early :
  let refusal := Received 0%nat (frame "Error" [("Id", num 1); ("ErrorMessage", JStr "refused")]) in
  outcome_of_call [] call_connect [Opened 0%nat; Invoke call_connect; refusal] =
    Some (Some (Rejected (ServerError (Some (JStr "refused"))))) /\
  outcome_of_call [Invoke call_connect; Opened 0%nat] call_connect [] =
    Some (Some (Fulfilled None)) /\
  outcome_of_call [Invoke call_connect; Opened 0%nat] call_connect [refusal] =
    Some (Some (Fulfilled None)).
Proof. vm_compute. repeat split; reflexivity. Qed.

(** ** The connect timeout *)

Lemma disarmed_alter (r : Runtime) (t t' : timer) :
  disarmed r t -> disarmed (with_timers (alter disarm t' (timers r)) r) t.
Proof.
  intros (tm & Htm & Ha). unfold disarmed. cbn.
  destruct (decide (t' = t)) as [->|Hne].
  - exists (disarm tm). rewrite list_lookup_alter_eq, Htm. split; reflexivity.
  - exists tm. rewrite list_lookup_alter_ne by assumption. split; assumption.
Qed.

(** No program arms a timer again. *)
Lemma exec_disarmed {A : Type} (m : Async A) (r : Runtime) (t : timer) :
  disarmed r t -> disarmed (exec m r).2 t.
Proof.
  revert r. induction m; intros r Hd; cbn [exec]; auto.
  - apply IHm. destruct Hd as (tm & Htm & Ha). exists tm. rewrite timers_settle. auto.
  - destruct (url_ok r url); auto.
  - apply H. destruct Hd as (tm & Htm & Ha). exists tm. cbn.
    rewrite lookup_app_l by (eapply lookup_lt_Some; eassumption). auto.
  - apply IHm. apply disarmed_alter. exact Hd.
Qed.

Lemma run_task_timers (t : Async unit) (l : Loop) :
  timers (rt (run_task t l)) = timers (exec t (rt l)).2.
Proof.
  unfold run_task. destruct (exec t (rt l)) as [st r].
  destruct (wake _ _ _ _) as [w q]. destruct st as [[]|e|p k]; try reflexivity.
  cbn. destruct (state_of _ p); reflexivity.
Qed.

Lemma run_task_promises (t : Async unit) (l : Loop) :
  promises (rt (run_task t l)) = promises (exec t (rt l)).2.
Proof.
  unfold run_task. destruct (exec t (rt l)) as [st r].
  destruct (wake _ _ _ _) as [w q]. destruct st as [[]|e|p k]; try reflexivity.
  cbn. destruct (state_of _ p); reflexivity.
Qed.

Lemma run_task_sockets (t : Async unit) (l : Loop) :
  sockets (rt (run_task t l)) = sockets (exec t (rt l)).2.
Proof.
  unfold run_task. destruct (exec t (rt l)) as [st r].
  destruct (wake _ _ _ _) as [w q]. destruct st as [[]|e|p k]; try reflexivity.
  cbn. destruct (state_of _ p); reflexivity.
Qed.

Lemma run_task_this (t : Async unit) (l : Loop) :
  this (rt (run_task t l)) = this (exec t (rt l)).2.
Proof.
  unfold run_task. destruct (exec t (rt l)) as [st r].
  destruct (wake _ _ _ _) as [w q]. destruct st as [[]|e|p k]; try reflexivity.
  cbn. destruct (state_of _ p); reflexivity.
Qed.

Lemma run_task_disarmed (t : Async unit) (l : Loop) (tm : timer) :
  disarmed (rt l) tm -> disarmed (rt (run_task t l)) tm.
Proof.
  intros H. unfold disarmed. rewrite run_task_timers. apply exec_disarmed. exact H.
Qed.

Lemma step_disarmed (ev : Event) (l l' : Loop) (t : timer) :
  step ev l = Some l' -> disarmed (rt l) t -> disarmed (rt l') t.
Proof.
  unfold step. intros Hs Hd.
  destruct ev, (ready l) as [|task0 rest]; try discriminate.
  - injection Hs as <-. apply run_task_disarmed. exact Hd.
  - destruct (sockets (rt l) !! s) as [sk|]; [|discriminate]. cbn [mbind option_bind] in Hs.
    destruct (readyState sk); try discriminate. injection Hs as <-.
    destruct (listeners sk) as [[t0 p]|]; [apply run_task_disarmed|]; exact Hd.
  - destruct (sockets (rt l) !! s) as [sk|]; [|discriminate]. cbn [mbind option_bind] in Hs.
    destruct (readyState sk); try discriminate; injection Hs as <-;
      (destruct (listeners sk) as [[t0 p]|]; [apply run_task_disarmed|]; exact Hd).
  - destruct (sockets (rt l) !! s) as [sk|]; [|discriminate]. cbn [mbind option_bind] in Hs.
    destruct (gone sk); [discriminate|]. injection Hs as <-.
    destruct (listeners sk) as [[t0 p]|]; [apply run_task_disarmed|]; exact Hd.
  - destruct (sockets (rt l) !! s) as [sk|]; [|discriminate]. cbn [mbind option_bind] in Hs.
    destruct (gone sk); [discriminate|]. injection Hs as <-.
    destruct (listeners sk) as [[t0 p]|]; [apply run_task_disarmed|]; exact Hd.
  - injection Hs as <-. exact Hd.
  - destruct (timers (rt l) !! t0) as [tm|]; [|discriminate]. cbn [mbind option_bind] in Hs.
    destruct (armed tm && _); [|discriminate]. injection Hs as <-.
    apply run_task_disarmed. apply disarmed_alter. exact Hd.
  - injection Hs as <-. apply run_task_disarmed. exact Hd.
Qed.

Lemma turns_disarmed (l l' : Loop) (t : timer) :
  turns l l' -> disarmed (rt l) t -> disarmed (rt l') t.
Proof. induction 1; eauto using step_disarmed. Qed.

Lemma disarmed_never_fires (l : Loop) (t : timer) :
  disarmed (rt l) t -> step (Fired t) l = None.
Proof.
  intros (tm & Htm & Ha). unfold step. destruct (ready l); [|reflexivity].
  rewrite Htm. cbn. rewrite Ha. reflexivity.
Qed.

Lemma exec_onopen_connected (t : timer) (p : promise) (r : Runtime) (s : socket) :
  ws (this r) = Some s -> readyState_of r s = OPEN ->
  exists k,
    exec (onopen t p) r =
      (Blocked (length (promises r)) k,
       after_send "RequestServerInfo"
         [("ClientName", JStr "Familiar"); ("MessageVersion", num 3)] s (opened t r)) /\
    awaits_server_info p k.
Proof.
  intros Hws Hst. unfold onopen, mbind, Async_bind.
  cbn [clearTimeout console bind exec]. fold (opened t r).
  rewrite exec_bind, exec_try_catch, exec_bind.
  rewrite (exec_send_connected _ _ (opened t r) s Hws Hst).
  cbn [await bind exec]. eexists. split; [reflexivity|]. split; [reflexivity|].
  intros v r1 s1 Hws1 Hst1.
  cbn [bind try_catch console exec].
  rewrite exec_bind, exec_try_catch, exec_bind.
  set (r2 := with_output _ r1).
  rewrite (exec_send_connected _ _ r2 s1 Hws1 Hst1).
  cbn [await bind exec]. eexists. split; [reflexivity|]. split; [reflexivity|].
  intros v' r3 s3 Hws3 Hst3.
  cbn [bind try_catch console exec].
  rewrite exec_bind, exec_try_catch, exec_bind.
  rewrite (exec_send_connected _ _ r3 s3 Hws3 Hst3).
  cbn [await bind exec]. eexists. split; [reflexivity|]. split; reflexivity.
Qed.

Lemma exec_onopen_disconnected (t : timer) (p : promise) (r : Runtime) :
  connected r = false ->
  exists k,
    exec (onopen t p) r =
      (Blocked (length (promises r)) k,
       settle (length (promises r)) (Rejected NotConnected)
         (with_promises (promises r ++ [None]) (settled r) (opened t r))) /\
    forall e r', exec (k (Rejected e)) r' = (Done tt, attempt_fails p e r').
Proof.
  intros Hc. unfold onopen, mbind, Async_bind.
  cbn [clearTimeout console bind exec]. fold (opened t r).
  rewrite exec_bind, exec_try_catch, exec_bind.
  rewrite (exec_send_disconnected _ _ (opened t r) Hc).
  cbn [await bind exec]. eexists. split; reflexivity.
Qed.

Lemma exec_ontimeout (p : promise) (r : Runtime) (s : socket) :
  ws (this r) = Some s ->
  exec (ontimeout p) r =
  (Done tt, attempt_fails p ConnectionTimeout
              (with_sockets (alter socket_close s (sockets r)) r)).
Proof. intros Hws. unfold ontimeout. cbn. rewrite Hws. reflexivity. Qed.

Lemma onopen_keeps_pending (t : timer) (p : promise) (r : Runtime) :
  promises r !! p = Some None -> state_of (exec (onopen t p) r).2 p = None.
Proof.
  intros Hp. pose proof (lookup_lt_Some _ _ _ Hp) as Hlt.
  destruct (connected r) eqn:Hc.
  - destruct (connected_inv r Hc) as (s & Hws & Hst).
    destruct (exec_onopen_connected t p r s Hws Hst) as (k & Ek & _). rewrite Ek.
    unfold state_of. cbn. rewrite lookup_app_l by assumption. rewrite Hp. reflexivity.
  - destruct (exec_onopen_disconnected t p r Hc) as (k & Ek & _). rewrite Ek.
    cbn [snd]. rewrite state_of_settle_other by lia.
    unfold state_of. cbn. rewrite lookup_app_l by assumption. rewrite Hp. reflexivity.
Qed.

Lemma onopen_disarms (t : timer) (p : promise) (r : Runtime) :
  (t < length (timers r))%nat -> disarmed (exec (onopen t p) r).2 t.
Proof.
  intros Hlt. unfold onopen, mbind, Async_bind. cbn [clearTimeout bind exec].
  apply exec_disarmed. destruct (lookup_lt_is_Some_2 _ _ Hlt) as [tm Htm].
  exists (disarm tm). cbn. rewrite list_lookup_alter_eq, Htm. split; reflexivity.
Qed.

(** C4, as the code has it: a new attempt arms a timer for 10 000 ms.  If it
    fires while the socket has not opened, the socket is closed and the
    attempt fails with the timeout error.  When the socket opens, the handler
    cancels the timer before it sends its first request: from then on the
    timer never fires, however much time passes, and the attempt is still
    pending; it succeeds when the third request (scan start) is answered,
    after the first two were, and fails when one of the three is rejected. *)
Theorem connect_timeout_covers_the_opening_only (l : Loop) (s t p : nat) (sk : Socket) :
  ready l = [] ->
  sockets (rt l) !! s = Some sk ->
  readyState sk = CONNECTING ->
  listeners sk = Some (t, p) ->
  promises (rt l) !! p = Some None ->
  (t < length (timers (rt l)))%nat ->
  (exists l',
     step (Opened s) l = Some l' /\
     disarmed (rt l') t /\
     state_of (rt l') p = None /\
     forall l'', turns l' l'' -> step (Fired t) l'' = None) /\
  (forall tm,
     timers (rt l) !! t = Some tm ->
     armed tm = true ->
     callback tm = ConnectTimeout p ->
     (due tm <= clock (rt l))%N ->
     ws (this (rt l)) = Some s ->
     exists l',
       step (Fired t) l = Some l' /\
       state_of (rt l') p = Some (Rejected ConnectionTimeout) /\
       readyState_of (rt l') s = CLOSING /\
       connectionPromise (this (rt l')) = None) /\
  (forall r s',
     ws (this r) = Some s' ->
     readyState_of r s' = OPEN ->
     exists k,
       exec (onopen t p) r =
         (Blocked (length (promises r)) k,
          after_send "RequestServerInfo"
            [("ClientName", JStr "Familiar"); ("MessageVersion", num 3)] s' (opened t r)) /\
       awaits_server_info p k) /\
  (forall r url,
     connected r = false ->
     connectionPromise (this r) = None ->
     wsUrl (this r) = Some url ->
     url <> "" ->
     url_ok r url = true ->
     exists k,
       exec connect r = (Blocked (length (promises r)) k, attempting url r) /\
       timers (attempting url r) !! length (timers r) =
         Some {| due := (clock r + 10000)%N;
                 callback := ConnectTimeout (length (promises r));
                 armed := true |}).
Proof.
  intros Hr Hsk Hst Hl Hp Ht. split; [|split; [|split]].
  - eexists. split.
    + unfold step. rewrite Hr, Hsk. cbn [mbind option_bind]. rewrite Hst, Hl. reflexivity.
    + set (l1 := update_socket s (set_readyState OPEN) l).
      assert (Hd : disarmed (rt (run_task (onopen t p) l1)) t).
      { unfold disarmed. rewrite run_task_timers. apply onopen_disarms. exact Ht. }
      split; [exact Hd|]. split.
      * unfold state_of. rewrite run_task_promises.
        apply (onopen_keeps_pending t p (rt l1)). exact Hp.
      * intros l'' Hl''. apply disarmed_never_fires. eapply turns_disarmed; eassumption.
  - intros tm Htm Harmed Hcb Hdue Hws. eexists. split.
    + unfold step. rewrite Hr, Htm. cbn [mbind option_bind]. rewrite Harmed.
      destruct (N.leb_spec (due tm) (clock (rt l))) as [_|Hlt]; [|lia]. cbn [andb].
      rewrite Hcb. reflexivity.
    + set (l1 := with_rt _ l).
      pose proof (exec_ontimeout p (rt l1) s Hws) as Ex. cbn [on_callback].
      unfold state_of, readyState_of.
      rewrite run_task_promises, run_task_sockets, run_task_this, Ex. cbn [snd].
      split; [|split].
      * apply (state_of_settle_same p _ (with_sockets _ (rt l1))). exact Hp.
      * unfold attempt_fails. cbn. unfold settle. cbn.
        destruct (promises (rt l) !! p) as [[?|]|]; cbn;
          rewrite list_lookup_alter_eq, Hsk; cbn; unfold socket_close; rewrite Hst; reflexivity.
      * reflexivity.
  - intros r s' Hws Hopen. apply exec_onopen_connected; assumption.
  - intros r url Hc Hcp Hurl Hne Hok.
    destruct (exec_connect_fresh r url Hc Hcp Hurl Hne Hok) as (k & Ek & _).
    exists k. split; [exact Ek|]. cbn.
    rewrite lookup_app_r by lia. rewrite Nat.sub_diag. reflexivity.
Qed.

(** The first attempt of a new client, ten seconds on and its socket not yet
    open: the socket may still open, or the timer may fire. *)
Lemma connect_timeout_covers_the_opening_only_witness :
  let l := after [Invoke call_connect; Elapsed 10000] in
  let sk := {| readyState := CONNECTING; sent := []; listeners := Some (0%nat, 1%nat);
               gone := false |} in
  let tm := {| due := 10000%N; callback := ConnectTimeout 1%nat; armed := true |} in
  ready l = [] /\
  sockets (rt l) !! 0%nat = Some sk /\
  promises (rt l) !! 1%nat = Some None /\
  (0 < length (timers (rt l)))%nat /\
  timers (rt l) !! 0%nat = Some tm /\
  (due tm <= clock (rt l))%N /\
  ws (this (rt l)) = Some 0%nat /\
  (exists l',
     step (Opened 0%nat) l = Some l' /\
     disarmed (rt l') 0%nat /\
     state_of (rt l') 1%nat = None /\
     forall l'', turns l' l'' -> step (Fired 0%nat) l'' = None) /\
  (exists l',
     step (Fired 0%nat) l = Some l' /\
     state_of (rt l') 1%nat = Some (Rejected ConnectionTimeout) /\
     readyState_of (rt l') 0%nat = CLOSING /\
     connectionPromise (this (rt l')) = None).
Proof.
  intros l sk tm.
  assert (Hr : ready l = []) by (vm_compute; reflexivity).
  assert (Hsk : sockets (rt l) !! 0%nat = Some sk) by (vm_compute; reflexivity).
  assert (Hp : promises (rt l) !! 1%nat = Some None) by (vm_compute; reflexivity).
  assert (Ht : (0 < length (timers (rt l)))%nat) by (vm_compute; lia).
  assert (Htm : timers (rt l) !! 0%nat = Some tm) by (vm_compute; reflexivity).
  assert (Hdue : (due tm <= clock (rt l))%N) by (vm_compute; discriminate).
  assert (Hws : ws (this (rt l)) = Some 0%nat) by (vm_compute; reflexivity).
  pose proof (connect_timeout_covers_the_opening_only l 0%nat 0%nat 1%nat sk
                Hr Hsk eq_refl eq_refl Hp Ht) as (Hopen & Hfire & _).
  repeat (split; [assumption|]).
  exact (Hfire tm Htm eq_refl eq_refl Hdue Hws).
Defined.

(** A minute after the socket opened, with no answer from the server: the
    attempt is still pending, the socket is still open, the timer is off. *)
Lemma handshake_is_not_timed :
  let l := after [Invoke call_connect; Opened 0%nat; Elapsed 60000] in
  clock (rt l) = 60000%N /\
  timers (rt l) = [{| due := 10000%N; callback := ConnectTimeout 1%nat; armed := false |}] /\
  connectionPromise (this (rt l)) = Some 1%nat /\
  state_of (rt l) 1%nat = None /\
  readyState_of (rt l) 0%nat = OPEN /\
  step (Fired 0%nat) l = None /\
  outcome_of_call [] call_connect [Opened 0%nat; Elapsed 60000] = Some None.
Proof. vm_compute. repeat split; reflexivity. Qed.

(** ** Socket close *)

(** C9: what the close handler does in any state, and what it leaves when
    the socket closes during the handshake: the registry and the pending
    table are empty and [ws] is [null], no promise is settled, but
    [connectionPromise] still holds the attempt, which nothing can settle any
    more; a later [connect()] joins it, opens no socket and stays pending. *)
Theorem close_during_handshake_keeps_the_attempt :
  (forall r,
     exists r',
       exec onclose r = (Done tt, r') /\
       ws (this r') = None /\
       devices (this r') = ∅ /\
       pendingMessages (this r') = ∅ /\
       promises r' = promises r /\
       connectionPromise (this r') = connectionPromise (this r)) /\
  let closed := [Invoke call_connect; Opened 0%nat; Closed 0%nat] in
  let l := after closed in
  ws (this (rt l)) = None /\
  connected (rt l) = false /\
  devices (this (rt l)) = ∅ /\
  pendingMessages (this (rt l)) = ∅ /\
  connectionPromise (this (rt l)) = Some 1%nat /\
  state_of (rt l) 1%nat = None /\
  map armed (timers (rt l)) = [false] /\
  outcome_of_call closed call_connect [Elapsed 60000] = Some None /\
  length (sockets (rt (after (closed ++ [Invoke call_connect; Elapsed 60000])))) = 1%nat.
Proof.
  split.
  - intros r. eexists. split; [reflexivity|]. repeat split; reflexivity.
  - vm_compute. repeat split; reflexivity.
Qed.
(** * More of the client *)

(** ** Replies *)

Lemma as_Z_num (z : Z) : as_Z (Some (num z)) = Some z.
Proof.
  unfold as_Z, num, Q_as_Z, inject_Z. cbn [Qnum Qden].
  rewrite Z.mod_1_r, Z.div_1_r. reflexivity.
Qed.

Lemma pending_of_num (o : IntifaceState) (id : Z) :
  pending_of o (Some (num id)) = p ← pendingMessages o !! id; Some (id, p).
Proof. unfold pending_of. rewrite as_Z_num. reflexivity. Qed.

Lemma exec_message (type : string) (content : JSON) (r : Runtime) :
  exec (handleMessage (message type content)) r =
  match exec (route (JObj [(type, content)])) r with
  | (Done a, r') => (Done a, r')
  | (Threw e, r') => (Done tt, with_output (output r' ++ [error_FailedToParse e]) r')
  | (Blocked p k, r') =>
      (Blocked p (fun o => try_catch (bind (k o) (fun _ => for_of [] route))
                             (fun err => console (error_FailedToParse err))), r')
  end.
Proof.
  unfold message. rewrite handleMessage_array, exec_for_of_cons.
  destruct (exec (route _) r) as [[[]|e|p k] r']; reflexivity.
Qed.

(** X1: a request and its answer.  On an open connection [send] registers
    its promise under the current [messageId]; an [Ok] or [ServerInfo] frame
    with that [Id] fulfils the promise with the content of the frame, an
    [Error] frame rejects it with the [ErrorMessage], and either takes the
    entry out of the pending table. *)
Theorem reply_settles_its_request (r : Runtime) (s : socket) (msgType : string)
    (payload more : list (string * JSON)) :
  ws (this r) = Some s ->
  readyState_of r s = OPEN ->
  let q := length (promises r) in
  let id := messageId (this r) in
  let content := JObj (("Id", num id) :: more) in
  exists r1,
    exec (send msgType payload) r = (Done q, r1) /\
    pendingMessages (this r1) !! id = Some q /\
    state_of r1 q = None /\
    (forall type,
       type = "Ok" \/ type = "ServerInfo" ->
       exec (handleMessage (message type content)) r1 =
       (Done tt, settle q (Fulfilled (Some content)) (answered id r1))) /\
    exec (handleMessage (message "Error" content)) r1 =
      (Done tt, settle q (Rejected (ServerError (assoc "ErrorMessage" more))) (answered id r1)) /\
    (forall o,
       state_of (settle q o (answered id r1)) q = Some o /\
       pendingMessages (this (settle q o (answered id r1))) !! id = None).
Proof.
  intros Hws Hst q id content.
  exists (after_send msgType payload s r).
  assert (Hp : pendingMessages (this (after_send msgType payload s r)) !! id = Some q).
  { cbn. apply lookup_insert_eq. }
  assert (Hq : promises (answered id (after_send msgType payload s r)) !! q = Some None).
  { cbn. rewrite lookup_app_r by reflexivity. unfold q. rewrite Nat.sub_diag. reflexivity. }
  split; [apply exec_send_connected; assumption|].
  split; [exact Hp|]. split.
  { unfold state_of. cbn. rewrite lookup_app_r by reflexivity.
    unfold q. rewrite Nat.sub_diag. reflexivity. }
  subst content. split; [|split].
  - intros type [-> | ->]; rewrite exec_message; unfold route;
      cbn [first_entry head lift mbind Async_bind bind prop assoc String.eqb Ascii.eqb
             Bool.eqb orb read exec];
      rewrite pending_of_num, Hp; reflexivity.
  - rewrite exec_message. unfold route.
    cbn [first_entry head lift mbind Async_bind bind prop assoc String.eqb Ascii.eqb
           Bool.eqb orb read exec].
    rewrite pending_of_num, Hp. reflexivity.
  - intros o. split.
    + apply state_of_settle_same. exact Hq.
    + rewrite this_settle. cbn. apply lookup_delete_eq.
Qed.

(** A [StopDeviceCmd] on the session, answered by [Ok]. *)
Lemma reply_settles_its_request_witness :
  let r := rt (after handshake) in
  let content := JObj [("Id", num 4)] in
  ws (this r) = Some 0%nat /\
  readyState_of r 0%nat = OPEN /\
  messageId (this r) = 4 /\
  exists r1,
    exec (send "StopDeviceCmd" [("DeviceIndex", num 0)]) r = (Done (length (promises r)), r1) /\
    exec (handleMessage (message "Ok" content)) r1 =
      (Done tt, settle (length (promises r)) (Fulfilled (Some content)) (answered 4 r1)).
Proof.
  assert (Hok : "Ok" = "Ok" \/ "Ok" = "ServerInfo") by (left; reflexivity).
  intros r content.
  assert (Hws : ws (this r) = Some 0%nat) by (vm_compute; reflexivity).
  assert (Hst : readyState_of r 0%nat = OPEN) by (vm_compute; reflexivity).
  assert (Hid : messageId (this r) = 4) by (vm_compute; reflexivity).
  pose proof (reply_settles_its_request r 0%nat "StopDeviceCmd" [("DeviceIndex", num 0)] []
                Hws Hst) as H.
  cbv zeta in H. rewrite Hid in H. destruct H as (r1 & Es & _ & _ & Hreply & _).
  split; [exact Hws|]. split; [exact Hst|]. split; [exact Hid|].
  exists r1. split; [exact Es|exact (Hreply "Ok" Hok)].
Defined.

Lemma eqb_of_not_routed (type known : string) :
  type ∉ routed -> known ∈ routed -> String.eqb type known = false.
Proof.
  intros Hn Hk. apply String.eqb_neq. intros ->. contradiction.
Qed.

(** X2: an [Ok], [ServerInfo] or [Error] frame whose [Id] matches no pending
    request (a late or repeated answer, or one without an [Id]), and a frame
    of a type that is not routed, change nothing: no field, no promise, no
    console line. *)
Theorem unmatched_frames_change_nothing (r : Runtime) (content : JSON) (id : Value) :
  prop content "Id" = inr id ->
  (forall type,
     type ∈ ["Ok"; "ServerInfo"; "Error"] ->
     pending_of (this r) id = None ->
     exec (handleMessage (message type content)) r = (Done tt, r)) /\
  (forall type,
     type ∉ routed ->
     exec (handleMessage (message type content)) r = (Done tt, r)).
Proof.
  intros Hid. split.
  - intros type Ht Hp. rewrite exec_message. unfold route.
    cbn [first_entry head lift mbind Async_bind bind exec]. rewrite Hid.
    repeat (apply elem_of_cons in Ht as [-> | Ht]);
      [| | |apply elem_of_nil in Ht; contradiction];
      cbn [lift mbind Async_bind String.eqb Ascii.eqb Bool.eqb orb read bind exec];
      rewrite Hp; reflexivity.
  - intros type Ht. rewrite exec_message. unfold route.
    cbn [first_entry head lift mbind Async_bind bind exec]. rewrite Hid.
    cbn [lift mbind Async_bind bind].
    rewrite !(eqb_of_not_routed type) by (assumption || (unfold routed; set_solver)).
    reflexivity.
Qed.

(** A late [Ok] and a [Ping] on the session: nothing changes. *)
Lemma unmatched_frames_change_nothing_witness :
  let r := rt (after handshake) in
  let content := JObj [("Id", num 99)] in
  exec (handleMessage (message "Ok" content)) r = (Done tt, r) /\
  exec (handleMessage (message "Ping" content)) r = (Done tt, r).
Proof.
  assert (Hok : "Ok" ∈ ["Ok"; "ServerInfo"; "Error"]) by (apply elem_of_cons; left; reflexivity).
  assert (Hping : "Ping" ∉ routed).
  { unfold routed. intros H.
    repeat (apply elem_of_cons in H as [H|H]; [discriminate H|]).
    apply elem_of_nil in H. exact H. }
  intros r content.
  assert (Hid : prop content "Id" = inr (Some (num 99))) by reflexivity.
  assert (Hp : pending_of (this r) (Some (num 99)) = None) by (vm_compute; reflexivity).
  destruct (unmatched_frames_change_nothing r content _ Hid) as [H1 H2].
  split; [exact (H1 "Ok" Hok Hp)|exact (H2 "Ping" Hping)].
Defined.

(** ** The registry *)









(** X5: a [DeviceList] answer whose [Devices] cannot be iterated (missing,
    [null], a number, an object) is logged as a failure; the request it
    answers stays in the pending table and no promise is settled. *)
Theorem device_list_without_devices_is_dropped (r : Runtime) (entries : list (string * JSON))
    (e : Error) :
  iterate (assoc "Devices" entries) = inl e ->
  exec (handleMessage (message "DeviceList" (JObj entries))) r =
    (Done tt, with_output (output r ++ [error_FailedToParse e]) r) /\
  pendingMessages (this (exec (handleMessage (message "DeviceList" (JObj entries))) r).2) =
    pendingMessages (this r) /\
  promises (exec (handleMessage (message "DeviceList" (JObj entries))) r).2 = promises r.
Proof.
  intros H.
  assert (E : exec (handleMessage (message "DeviceList" (JObj entries))) r =
              (Done tt, with_output (output r ++ [error_FailedToParse e]) r)).
  { rewrite exec_message. unfold route.
    cbn [first_entry head lift mbind Async_bind bind prop String.eqb Ascii.eqb Bool.eqb exec].
    rewrite H. reflexivity. }
  rewrite E. repeat split; reflexivity.
Qed.

(** The answer to [RequestDeviceList] during the handshake, without its
    [Devices]: the request stays in the table. *)
Lemma device_list_without_devices_is_dropped_witness :
  let r := rt (after [Invoke call_connect; Opened 0%nat;
                      Received 0%nat (frame "ServerInfo" [("Id", num 1)])]) in
  let reply := message "DeviceList" (JObj [("Id", num 2)]) in
  exec (handleMessage reply) r =
    (Done tt, with_output (output r ++ [error_FailedToParse TypeError]) r) /\
  pendingMessages (this (exec (handleMessage reply) r).2) = pendingMessages (this r).
Proof.
  intros r reply.
  destruct (device_list_without_devices_is_dropped r [("Id", num 2)] TypeError eq_refl)
    as (E & Hp & _).
  split; [exact E|exact Hp].
Defined.


(** ** More of the actuation layer *)



(** X6: on an open connection with a registry that is not empty, [vibrate],
    [rotate], [linear] and [stop] throw [Device i not found] for an index that
    is not registered, and the first three throw their own error for a device
    without the capability; in each case nothing is sent and no id is used
    (the runtime is left as it was). *)
Theorem actuation_needs_a_registered_device (r : Runtime) (s : socket) (i : Z) :
  ws (this r) = Some s ->
  readyState_of r s = OPEN ->
  (0 < size (devices (this r)))%nat ->
  (devices (this r) !! i = None ->
   (forall x motor, exec (vibrate i x motor) r = (Threw (DeviceNotFound i), r)) /\
   (forall x clockwise motor,
      exec (rotate i x clockwise motor) r = (Threw (DeviceNotFound i), r)) /\
   (forall x durationMs motor,
      exec (linear i x durationMs motor) r = (Threw (DeviceNotFound i), r)) /\
   exec (stop i) r = (Threw (DeviceNotFound i), r)) /\
  (forall dev,
     devices (this r) !! i = Some dev ->
     (Cap.vibrate (capabilities dev) = None ->
      forall x motor, exec (vibrate i x motor) r = (Threw (NoVibration i), r)) /\
     (Cap.rotate (capabilities dev) = None ->
      forall x clockwise motor,
        exec (rotate i x clockwise motor) r = (Threw (NoRotation i), r)) /\
     (Cap.linear (capabilities dev) = None ->
      forall x durationMs motor,
        exec (linear i x durationMs motor) r = (Threw (NoLinear i), r))).
Proof.
  intros Hws Hst Hsize.
  assert (Hc : connected r = true) by (unfold connected; rewrite Hws, Hst; reflexivity).
  pose proof (exec_ensureConnected_ready r Hc Hsize) as He.
  split.
  - intros Hn. repeat split; intros;
      unfold vibrate, rotate, linear, stop, mbind, Async_bind;
      rewrite exec_bind, He; cbn [read bind exec]; rewrite Hn; reflexivity.
  - intros dev Hdev. repeat split; intros Hcap; intros;
      unfold vibrate, rotate, linear, mbind, Async_bind;
      rewrite exec_bind, He; cbn [read bind exec]; rewrite Hdev, Hcap; reflexivity.
Qed.

(** On the session: device 7 is not registered, and device 0 rotates
    nothing. *)
Lemma actuation_needs_a_registered_device_witness :
  let r := rt (after handshake) in
  exec (stop 7) r = (Threw (DeviceNotFound 7), r) /\
  exec (rotate 0 1 None None) r =
    (Threw (ServerError (Some (JStr "Device 0 does not support rotation"))), r).
Proof.
  intros r.
  assert (Hws : ws (this r) = Some 0%nat) by (vm_compute; reflexivity).
  assert (Hst : readyState_of r 0%nat = OPEN) by (vm_compute; reflexivity).
  assert (Hsize : (0 < size (devices (this r)))%nat) by (vm_compute; lia).
  assert (H7 : devices (this r) !! 7 = None) by (vm_compute; reflexivity).
  assert (H0 : devices (this r) !! 0 = Some toy_device) by (vm_compute; reflexivity).
  destruct (actuation_needs_a_registered_device r 0%nat 7 Hws Hst Hsize) as [Habsent _].
  destruct (actuation_needs_a_registered_device r 0%nat 0 Hws Hst Hsize) as [_ Hcap].
  destruct (Habsent H7) as (_ & _ & _ & Hstop).
  destruct (Hcap toy_device H0) as (_ & Hrot & _).
  split; [exact Hstop|]. exact (Hrot eq_refl 1%Q None None).
Defined.








(** ** Waiting for a device *)

(** X11: the loop of [ensureConnected] looks at the registry at most ten
    times, sleeps 500 ms after each look that finds it empty, and then goes
    on normally, with or without a device; with a device registered it goes
    on at once.  On an open connection [ensureConnected] is that loop. *)
Theorem wait_for_device_polls {A : Type} (n : nat) (f : unit -> Async A) :
  polls n (bind (wait_for_device n) f) (f tt) /\
  (forall r,
     connected r = true ->
     exec (bind ensureConnected f) r = exec (bind (wait_for_device 10) f) r) /\
  (forall r,
     (0 < size (devices (this r)))%nat ->
     exec (bind (wait_for_device n) f) r = exec (f tt) r).
Proof.
  split; [|split].
  - induction n as [|n IH]; intros r.
    + cbn. destruct (size (devices (this r))); reflexivity.
    + destruct (Nat.ltb 0 (size (devices (this r)))) eqn:E.
      * rewrite exec_bind, exec_wait_for_device_ready; [reflexivity|].
        apply Nat.ltb_lt. exact E.
      * cbn [wait_for_device]. unfold sleep, mbind, Async_bind.
        cbn [read new_promise setTimeout await bind exec]. rewrite E.
        cbn [new_promise setTimeout await bind exec].
        eexists. split; [reflexivity|]. intros v. exact IH.
  - intros r Hc. unfold ensureConnected, mbind, Async_bind.
    rewrite !exec_bind, exec_isConnected, Hc. reflexivity.
  - intros r H. rewrite exec_bind, exec_wait_for_device_ready by exact H. reflexivity.
Qed.

(** ** Connecting and disconnecting *)

Lemma settle_pending (p : promise) (o : Outcome) (r : Runtime) :
  promises r !! p = Some None ->
  settle p o r = with_promises (<[p := Some o]> (promises r)) (settled r ++ [p]) r.
Proof. intros H. unfold settle. rewrite H. reflexivity. Qed.

Lemma sockets_settle (p : promise) (o : Outcome) (r : Runtime) :
  sockets (settle p o r) = sockets r.
Proof. unfold settle. destruct (promises r !! p) as [[?|]|]; reflexivity. Qed.

Lemma output_settle (p : promise) (o : Outcome) (r : Runtime) :
  output (settle p o r) = output r.
Proof. unfold settle. destruct (promises r !! p) as [[?|]|]; reflexivity. Qed.

Lemma lookup_fresh_promise (r : Runtime) :
  (promises r ++ [None]) !! length (promises r) = Some (@None Outcome).
Proof. rewrite lookup_app_r by reflexivity. rewrite Nat.sub_diag. reflexivity. Qed.

(** X12: [connect()] with no URL, or with a URL the [WebSocket] constructor
    refuses, rejects its promise before any socket exists, and
    [connectionPromise] is left holding that rejected promise (the
    assignment of the new promise comes after the reset in the executor): a
    later [connect()] awaits the same promise and makes no new attempt. *)
Theorem connect_keeps_an_attempt_that_failed_at_once (r : Runtime) :
  connected r = false ->
  connectionPromise (this r) = None ->
  let p := length (promises r) in
  (wsUrl (this r) = None \/ wsUrl (this r) = Some "" ->
   exists k r',
     exec connect r = (Blocked p k, r') /\
     passes_on k tt /\
     state_of r' p = Some (Rejected UrlNotSet) /\
     connectionPromise (this r') = Some p /\
     sockets r' = sockets r /\
     timers r' = timers r /\
     output r' = output r) /\
  (forall url,
     wsUrl (this r) = Some url ->
     url <> "" ->
     url_ok r url = false ->
     exists k r',
       exec connect r = (Blocked p k, r') /\
       passes_on k tt /\
       state_of r' p = Some (Rejected SyntaxError) /\
       connectionPromise (this r') = Some p /\
       sockets r' = sockets r /\
       timers r' = timers r /\
       output r' = output r ++ [log_Connecting url; error_Constructor SyntaxError] /\
       exists k', exec connect r' = (Blocked p k', r') /\ passes_on k' tt).
Proof.
  intros Hc Hp p. split.
  - intros Hurl. unfold connect, mbind, Async_bind.
    rewrite exec_bind, exec_isConnected, Hc. cbn [read bind exec]. rewrite Hp.
    unfold connect_executor, mbind, Async_bind.
    cbn [new_promise read bind exec with_promises this].
    assert (E : match wsUrl (this r) with
                | Some (String _ _) => False
                | _ => True
                end) by (destruct Hurl as [-> | ->]; exact I).
    destruct (wsUrl (this r)) as [[|c url]|]; try contradiction;
      cbn [reject assign await bind exec];
      (do 2 eexists; split; [reflexivity|]; split; [split; reflexivity|];
       erewrite settle_pending by exact (lookup_fresh_promise r);
       split; [|repeat split; reflexivity];
       unfold state_of; cbn; rewrite list_lookup_insert_eq; [reflexivity|];
       rewrite length_app; cbn; lia).
  - intros url Hurl Hne Hok.
    pose proof (eq_refl (exec connect r)) as E.
    unfold connect at 2 in E. unfold mbind, Async_bind in E.
    rewrite exec_bind, exec_isConnected, Hc in E. cbn [read bind exec] in E. rewrite Hp in E.
    unfold connect_executor, mbind, Async_bind in E.
    cbn [new_promise read bind exec with_promises this] in E. rewrite Hurl in E.
    destruct url as [|c url]; [congruence|].
    cbn [console new_WebSocket bind exec with_output with_promises url_ok] in E.
    rewrite Hok in E. cbn [console reject assign await bind exec] in E.
    erewrite settle_pending in E by exact (lookup_fresh_promise r).
    do 2 eexists. split; [exact E|]. split; [split; reflexivity|].
    split.
    { unfold state_of. cbn. rewrite list_lookup_insert_eq; [reflexivity|].
      rewrite length_app. cbn. lia. }
    split; [reflexivity|]. split; [reflexivity|]. split; [reflexivity|].
    split; [cbn; rewrite <- app_assoc; reflexivity|].
    match goal with |- context [exec connect ?r1] =>
      apply (exec_connect_joins r1 p); [exact Hc|reflexivity] end.
Qed.

(** A client whose URL the [WebSocket] constructor refuses. *)
Lemma connect_keeps_an_attempt_that_failed_at_once_witness :
  let r := rt (boot "not a url" (fun _ => false)) in
  exists k r',
    exec connect r = (Blocked 0%nat k, r') /\
    state_of r' 0%nat = Some (Rejected SyntaxError) /\
    connectionPromise (this r') = Some 0%nat /\
    sockets r' = [] /\
    exists k', exec connect r' = (Blocked 0%nat k', r').
Proof.
  intros r.
  assert (Hne : "not a url" <> "") by discriminate.
  destruct (connect_keeps_an_attempt_that_failed_at_once r eq_refl eq_refl) as [_ H].
  destruct (H "not a url" eq_refl Hne eq_refl)
    as (k & r' & E & _ & Hst & Hcp & Hso & _ & _ & k' & E' & _).
  exists k, r'. split; [exact E|]. split; [exact Hst|]. split; [exact Hcp|].
  split; [exact Hso|]. exists k'. exact E'.
Defined.

(** X13: [disconnect()] closes the socket it holds, sets [ws] to [null] and
    empties the registry; it settles no promise and leaves the pending table
    and [connectionPromise] as they are; a second [disconnect()] changes
    nothing. *)
Theorem disconnect_forgets_the_socket (r : Runtime) :
  exists r',
    exec disconnect r = (Done tt, r') /\
    ws (this r') = None /\
    devices (this r') = ∅ /\
    connected r' = false /\
    pendingMessages (this r') = pendingMessages (this r) /\
    connectionPromise (this r') = connectionPromise (this r) /\
    promises r' = promises r /\
    settled r' = settled r /\
    (forall s,
       ws (this r) = Some s ->
       readyState_of r s = OPEN \/ readyState_of r s = CONNECTING ->
       readyState_of r' s = CLOSING) /\
    exec disconnect r' = (Done tt, r').
Proof.
  unfold disconnect, mbind, Async_bind. cbn [read bind exec].
  destruct (ws (this r)) as [s|] eqn:Hws; cbn [ws_close assign mret Async_ret bind exec];
    eexists; (split; [reflexivity|]);
    repeat (split; [first [reflexivity|unfold connected; cbn; rewrite Hws; reflexivity]|]).
  - split; [|reflexivity].
    intros s' Hs' Hst. assert (s' = s) as -> by congruence. clear Hs'.
    unfold readyState_of in *. cbn.
    rewrite list_lookup_alter_eq.
    destruct (sockets r !! s) as [sk|]; cbn in *; [|destruct Hst; discriminate].
    unfold socket_close. destruct Hst as [-> | ->]; reflexivity.
  - split; [intros s H; discriminate H|]. cbn. rewrite Hws. reflexivity.
Qed.

Lemma run_task_done (t : Async unit) (l : Loop) (r' : Runtime) :
  exec t (rt l) = (Done tt, r') ->
  rt (run_task t l) = with_promises (promises r') [] r'.
Proof.
  intros E. unfold run_task. rewrite E.
  destruct (wake _ _ _ _) as [w q]. reflexivity.
Qed.

(** X14: the error event of the socket of an attempt rejects the attempt
    with [WebSocket error], logs it and resets [connectionPromise]; the client
    is then not connected, and the next [connect()] makes a new attempt with
    a socket of its own. *)
Theorem failed_attempt_can_be_retried (l : Loop) (s t p : nat) (sk : Socket) :
  ready l = [] ->
  sockets (rt l) !! s = Some sk ->
  gone sk = false ->
  listeners sk = Some (t, p) ->
  ws (this (rt l)) = Some s ->
  promises (rt l) !! p = Some None ->
  exists l',
    step (Errored s) l = Some l' /\
    state_of (rt l') p = Some (Rejected WebSocketError) /\
    connectionPromise (this (rt l')) = None /\
    connected (rt l') = false /\
    output (rt l') = output (rt l) ++ [error_WebSocket] /\
    forall url,
      wsUrl (this (rt l)) = Some url ->
      url <> "" ->
      url_ok (rt l) url = true ->
      exists k,
        exec connect (rt l') = (Blocked (length (promises (rt l'))) k, attempting url (rt l')) /\
        passes_on k tt /\
        sockets (attempting url (rt l')) = sockets (rt l') ++ [attempt_socket (rt l')].
Proof.
  intros Hr Hsk Hg Hl Hws Hp.
  set (l1 := update_socket s (set_readyState CLOSED) l).
  assert (Hp1 : promises (with_output (output (rt l1) ++ [error_WebSocket])
                            (with_timers (alter disarm t (timers (rt l1))) (rt l1))) !! p
                = Some None) by exact Hp.
  assert (E : exec (onerror t p) (rt l1) =
              (Done tt,
               with_this (set_connectionPromise None)
                 (with_promises (<[p := Some (Rejected WebSocketError)]> (promises (rt l)))
                    (settled (rt l) ++ [p])
                    (with_output (output (rt l) ++ [error_WebSocket])
                       (with_timers (alter disarm t (timers (rt l))) (rt l1)))))).
  { unfold onerror, mbind, Async_bind. cbn [clearTimeout console reject assign bind exec].
    rewrite (settle_pending _ _ _ Hp1). reflexivity. }
  exists (run_task (onerror t p) l1). split.
  { unfold step. rewrite Hr, Hsk. cbn [mbind option_bind]. rewrite Hg, Hl. reflexivity. }
  rewrite (run_task_done _ _ _ E).
  assert (Hc : connected
                 (with_promises (<[p := Some (Rejected WebSocketError)]> (promises (rt l))) []
                    (with_this (set_connectionPromise None)
                       (with_promises (<[p := Some (Rejected WebSocketError)]> (promises (rt l)))
                          (settled (rt l) ++ [p])
                          (with_output (output (rt l) ++ [error_WebSocket])
                             (with_timers (alter disarm t (timers (rt l))) (rt l1))))))
               = false).
  { unfold connected, readyState_of. cbn. rewrite Hws, list_lookup_alter_eq, Hsk. reflexivity. }
  split.
  { unfold state_of. cbn. rewrite list_lookup_insert_eq; [reflexivity|].
    eapply lookup_lt_Some; eassumption. }
  split; [reflexivity|]. split; [exact Hc|]. split; [reflexivity|].
  intros url Hurl Hne Hok.
  match goal with |- context [exec connect ?r1] =>
    destruct (exec_connect_fresh r1 url Hc eq_refl Hurl Hne Hok) as (k & Ek & Hk) end.
  exists k. split; [exact Ek|]. split; [exact Hk|reflexivity].
Qed.

(** The first attempt of a new client fails; the next [connect()] opens a
    second socket. *)
Lemma failed_attempt_can_be_retried_witness :
  let l := after [Invoke call_connect] in
  exists l',
    step (Errored 0%nat) l = Some l' /\
    state_of (rt l') 1%nat = Some (Rejected WebSocketError) /\
    connectionPromise (this (rt l')) = None /\
    exists k,
      exec connect (rt l') = (Blocked (length (promises (rt l'))) k, attempting url0 (rt l')) /\
      sockets (attempting url0 (rt l')) = sockets (rt l') ++ [attempt_socket (rt l')].
Proof.
  intros l.
  assert (Hne : url0 <> "") by discriminate.
  assert (Hr : ready l = []) by (vm_compute; reflexivity).
  assert (Hsk : sockets (rt l) !! 0%nat =
                Some {| readyState := CONNECTING; sent := []; listeners := Some (0%nat, 1%nat);
                        gone := false |}) by (vm_compute; reflexivity).
  assert (Hws : ws (this (rt l)) = Some 0%nat) by (vm_compute; reflexivity).
  assert (Hp : promises (rt l) !! 1%nat = Some None) by (vm_compute; reflexivity).
  assert (Hurl : wsUrl (this (rt l)) = Some url0) by (vm_compute; reflexivity).
  assert (Hok : url_ok (rt l) url0 = true) by (vm_compute; reflexivity).
  destruct (failed_attempt_can_be_retried l 0%nat 0%nat 1%nat _ Hr Hsk eq_refl eq_refl Hws Hp)
    as (l' & Es & Hst & Hcp & _ & _ & Hretry).
  destruct (Hretry url0 Hurl Hne Hok) as (k & Ek & _ & Hso).
  exists l'. split; [exact Es|]. split; [exact Hst|]. split; [exact Hcp|].
  exists k. split; [exact Ek|exact Hso].
Defined.

Lemma readyState_of_ext (r r' : Runtime) (s : socket) :
  sockets r' !! s = sockets r !! s -> readyState_of r' s = readyState_of r s.
Proof. intros H. unfold readyState_of. rewrite H. reflexivity. Qed.

(** X15: the close event of any socket that carries the handlers of
    [connect], the current one or an earlier one, sets [ws] to [null] and
    empties the registry and the pending table; the other sockets stay as
    they are, so after [disconnect()] and a new [connect()] the late close
    event of the first socket leaves the client disconnected from a second
    socket that is still open. *)
Theorem close_of_any_socket_resets_the_client (l : Loop) (s : nat) (sk : Socket)
    (handlers : timer * promise) :
  ready l = [] ->
  sockets (rt l) !! s = Some sk ->
  gone sk = false ->
  listeners sk = Some handlers ->
  exists l',
    step (Closed s) l = Some l' /\
    ws (this (rt l')) = None /\
    connected (rt l') = false /\
    devices (this (rt l')) = ∅ /\
    pendingMessages (this (rt l')) = ∅ /\
    connectionPromise (this (rt l')) = connectionPromise (this (rt l)) /\
    promises (rt l') = promises (rt l) /\
    forall s', s' <> s -> sockets (rt l') !! s' = sockets (rt l) !! s'.
Proof.
  intros Hr Hsk Hg Hl.
  set (l1 := update_socket s (fun sk =>
    {| readyState := CLOSED; sent := sent sk; listeners := listeners sk; gone := true |}) l).
  assert (E : exec onclose (rt l1) =
              (Done tt,
               with_this (set_pendingMessages ∅)
                 (with_this (set_devices ∅)
                    (with_this (set_ws None)
                       (with_output (output (rt l1) ++ [log_Disconnected]) (rt l1))))))
    by reflexivity.
  exists (run_task onclose l1). split.
  { unfold step. rewrite Hr, Hsk. cbn [mbind option_bind]. rewrite Hg, Hl. reflexivity. }
  rewrite (run_task_done _ _ _ E).
  repeat (split; [reflexivity|]).
  intros s' Hne. cbn. apply list_lookup_alter_ne. congruence.
Qed.

(** [disconnect()] and a new [connect()] on the session; the second socket
    has opened when the close event of the first arrives. *)
Lemma close_of_any_socket_resets_the_client_witness :
  let l := after (handshake ++ [Invoke call_disconnect; Invoke call_connect; Opened 1%nat]) in
  ws (this (rt l)) = Some 1%nat /\
  connected (rt l) = true /\
  exists l',
    step (Closed 0%nat) l = Some l' /\
    ws (this (rt l')) = None /\
    connected (rt l') = false /\
    readyState_of (rt l') 1%nat = OPEN.
Proof.
  intros l.
  assert (Hr : ready l = []) by (vm_compute; reflexivity).
  assert (Hws : ws (this (rt l)) = Some 1%nat) by (vm_compute; reflexivity).
  assert (Hc : connected (rt l) = true) by (vm_compute; reflexivity).
  assert (Hsk : sockets (rt l) !! 0%nat =
                Some {| readyState := CLOSING; sent := sent session_socket;
                        listeners := Some (0%nat, 1%nat); gone := false |})
    by (vm_compute; reflexivity).
  assert (H1 : readyState_of (rt l) 1%nat = OPEN) by (vm_compute; reflexivity).
  destruct (close_of_any_socket_resets_the_client l 0%nat _ _ Hr Hsk eq_refl eq_refl)
    as (l' & Es & Hws' & Hc' & _ & _ & _ & _ & Hother).
  split; [exact Hws|]. split; [exact Hc|].
  exists l'. split; [exact Es|]. split; [exact Hws'|]. split; [exact Hc'|].
  assert (Hne : 1%nat <> 0%nat) by discriminate.
  rewrite (readyState_of_ext (rt l) (rt l') 1%nat (Hother 1%nat Hne)). exact H1.
Defined.

(** ** Best-effort device control *)


(** A handler that does not throw makes the whole [try] safe. *)
Lemma NoThrow_try_catch {A : Type} (m : Async A) (h : Error -> Async A) :
  (forall e, NoThrow (h e)) -> NoThrow (try_catch m h).
Proof. intros Hh. induction m; simpl; try constructor; auto. Qed.





Lemma Finally_after {A B : Type} (Q : IntifaceState -> Prop) (m : Async A) (f : A -> Async B) :
  NoThrow m -> (forall a o, Finally Q (f a) o) -> forall o, Finally Q (bind m f) o.
Proof. intros Hm Hf. induction Hm; intros o'; simpl; try constructor; auto. Qed.

Lemma Finally_exec {A : Type} (Q : IntifaceState -> Prop) (m : Async A) (r : Runtime) :
  Finally Q m (this r) ->
  match exec m r with
  | (Done _, r') => Q (this r')
  | (Threw _, _) => False
  | (Blocked _ k, _) => forall out o, Finally Q (k out) o
  end.
Proof.
  intros Hm. remember (this r) as o eqn:Eo. revert r Eo.
  induction Hm; intros r Eo; subst; simpl;
    try assumption; try (apply IHHm; reflexivity); try (apply H0; reflexivity); auto.
  - apply IHHm. rewrite this_settle. reflexivity.
  - destruct (url_ok r url); apply H0; reflexivity.
Qed.

(** X17: [onSessionStateMessage] with a state message never throws, and
    whenever it ends, at once or after the device command was answered or
    failed, [lastWorkingCount] is the count of the message. *)
Theorem bridge_always_records_the_count (c : Z) :
  (forall o,
     Finally (fun o' => lastWorkingCount o' = c) (onSessionStateMessage (state c)) o) /\
  (forall r,
     match exec (onSessionStateMessage (state c)) r with
     | (Done _, r') => lastWorkingCount (this r') = c
     | (Threw _, _) => False
     | (Blocked _ k, _) =>
         forall out r1,
           match exec (k out) r1 with
           | (Done _, r') => lastWorkingCount (this r') = c
           | (Threw _, _) => False
           | (Blocked _ _, _) => True
           end
     end).
Proof.
  assert (H : forall o,
            Finally (fun o' => lastWorkingCount o' = c) (onSessionStateMessage (state c)) o).
  { intros o. unfold onSessionStateMessage, mbind, Async_bind, read. cbn [bind].
    constructor. apply Finally_after.
    - destruct (_ && _); [|constructor].
      apply NoThrow_try_catch. intros e. repeat constructor.
    - intros _ o'. repeat constructor. }
  split; [exact H|]. intros r.
  pose proof (Finally_exec _ _ r (H (this r))) as Hr.
  destruct (exec (onSessionStateMessage (state c)) r) as [[a|e|p k] r']; [exact Hr|exact Hr|].
  intros out r1. pose proof (Finally_exec _ _ r1 (Hr out (this r1))) as Hk.
  destruct (exec (k out) r1) as [[a|e|p' k'] r'']; [exact Hk|exact Hk|exact I].
Qed.

(** ** The loop keeps the tables *)

Section Keeping.
Context (I : IntifaceState -> Prop).

Lemma Keeps_bind {A B : Type} (m : Async A) (f : A -> Async B) (o : IntifaceState) :
  Keeps I m o -> (forall a o', I o' -> Keeps I (f a) o') -> I o -> Keeps I (bind m f) o.
Proof. intros Hm Hf. induction Hm; intros Ho; simpl; try constructor; auto. Qed.

Lemma Keeps_try_catch {A : Type} (m : Async A) (h : Error -> Async A) (o : IntifaceState) :
  Keeps I m o -> (forall e o', I o' -> Keeps I (h e) o') -> I o -> Keeps I (try_catch m h) o.
Proof. intros Hm Hh. induction Hm; intros Ho; simpl; try constructor; auto. Qed.

Lemma Keeps_for_of {A : Type} (l : list A) (body : A -> Async unit) (o : IntifaceState) :
  (forall x o', I o' -> Keeps I (body x) o') -> I o -> Keeps I (for_of l body) o.
Proof.
  intros H. revert o. induction l as [|x l IH]; intros o Ho; simpl; [constructor|].
  apply Keeps_bind; auto.
Qed.

Lemma Keeps_lift {A : Type} (x : Error + A) (o : IntifaceState) : Keeps I (lift x) o.
Proof. destruct x; constructor. Qed.

Lemma Keeps_exec {A : Type} (m : Async A) (r : Runtime) :
  Keeps I m (this r) -> I (this r) ->
  I (this (exec m r).2) /\
  forall p k, (exec m r).1 = Blocked p k -> forall out o, I o -> Keeps I (k out) o.
Proof.
  intros Hm. remember (this r) as o eqn:Eo. revert r Eo.
  induction Hm; intros r Eo Ho; subst; simpl;
    try (split; [assumption|congruence]);
    try (apply IHHm; [reflexivity|assumption]);
    try (apply H0; [reflexivity|assumption]).
  - apply IHHm; [rewrite this_settle; reflexivity|assumption].
  - split; [assumption|]. intros q k' [= -> ->]. assumption.
  - destruct (url_ok r url); apply H0; (reflexivity || assumption).
Qed.

End Keeping.

Lemma Keeps_Assign_then (I : IntifaceState -> Prop) {A : Type} (f : IntifaceState -> IntifaceState)
    (k : Async A) (o : IntifaceState) :
  I (f o) -> (I (f o) -> Keeps I k (f o)) -> Keeps I (Assign f k) o.
Proof. intros H Hk. constructor; auto. Qed.

(** Solves [tables_ok] of the fields after an assignment. *)
Ltac tables :=
  repeat match goal with
         | H : tables_ok _ |- _ => destruct H as (? & ? & ?)
         end;
  unfold tables_ok in *;
  cbn [ws devices messageId pendingMessages connectionPromise wsUrl active device strength
       since lastWorkingCount set_ws set_devices set_messageId set_pendingMessages
       set_connectionPromise set_presence set_lastWorkingCount] in *;
  split; [lia|split];
  intros ? ? Hlookup;
  try (rewrite lookup_empty in Hlookup; discriminate Hlookup);
  try (apply lookup_delete_Some in Hlookup as [_ Hlookup]);
  try (apply lookup_insert_Some in Hlookup as [[<- <-]|[_ Hlookup]]);
  try reflexivity;
  try match goal with
      | H : forall k p, pendingMessages _ !! k = Some p -> _ |- _ =>
          specialize (H _ _ Hlookup)
      end;
  try match goal with
      | H : forall k p, _ !! k = Some p -> _ <= _ < _ |- _ => specialize (H _ _ Hlookup)
      end;
  try lia; eauto.

(** Breaks a program into its operations. *)
Ltac keeps :=
  repeat first
    [ assumption
    | solve [auto with keeps nocore]
    | apply Keeps_lift
    | match goal with
      | |- Keeps _ (for_of _ _) _ => apply Keeps_for_of; [intros|assumption]
      | |- Keeps _ (try_catch _ _) _ => apply Keeps_try_catch; [|intros|assumption]
      | |- Keeps _ (Assign _ _) _ => apply Keeps_Assign_then; [tables|intro]
      | |- Keeps _ (Await _ _) _ => apply Keeps_Await; intros
      | |- Keeps _ (match ?x with _ => _ end) _ => destruct x eqn:?
      | |- Keeps _ (if ?x then _ else _) _ => destruct x eqn:?
      end
    | progress (unfold mbind, mret, Async_bind, Async_ret, read, assign, resolve, reject,
                console, delete_pending, new_promise, new_WebSocket, ready_state, ws_send,
                ws_close, listen, setTimeout, clearTimeout, date_now, await)
    | progress cbn [bind]
    | match goal with
      | |- Keeps _ (bind _ _) _ => apply Keeps_bind; [|intros|assumption]
      end
    | constructor; intros ].

Create HintDb keeps.

Lemma Keeps_isConnected o : tables_ok o -> Keeps tables_ok isConnected o.
Proof. intros Ho. unfold isConnected. keeps. Qed.
#[local] Hint Resolve Keeps_isConnected : keeps.

Lemma Keeps_send (msgType : string) (payload : list (string * JSON)) o :
  tables_ok o -> Keeps tables_ok (send msgType payload) o.
Proof. intros Ho. unfold send, nextId, isConnected. keeps. Qed.
#[local] Hint Resolve Keeps_send : keeps.

Lemma Keeps_handleMessage (data : text) o :
  tables_ok o -> Keeps tables_ok (handleMessage data) o.
Proof. intros Ho. unfold handleMessage, route. keeps. Qed.

Lemma Keeps_ontimeout (p : promise) o : tables_ok o -> Keeps tables_ok (ontimeout p) o.
Proof. intros Ho. unfold ontimeout. keeps. Qed.

Lemma Keeps_onopen (t : timer) (p : promise) o : tables_ok o -> Keeps tables_ok (onopen t p) o.
Proof. intros Ho. unfold onopen. keeps. Qed.

Lemma Keeps_onerror (t : timer) (p : promise) o : tables_ok o -> Keeps tables_ok (onerror t p) o.
Proof. intros Ho. unfold onerror. keeps. Qed.

Lemma Keeps_onclose o : tables_ok o -> Keeps tables_ok onclose o.
Proof. intros Ho. unfold onclose. keeps. Qed.

Lemma Keeps_connect o : tables_ok o -> Keeps tables_ok connect o.
Proof. intros Ho. unfold connect, connect_executor. keeps. Qed.
#[local] Hint Resolve Keeps_connect : keeps.

Lemma Keeps_disconnect o : tables_ok o -> Keeps tables_ok disconnect o.
Proof. intros Ho. unfold disconnect. keeps. Qed.
#[local] Hint Resolve Keeps_disconnect : keeps.

Lemma Keeps_wait_for_device (n : nat) o : tables_ok o -> Keeps tables_ok (wait_for_device n) o.
Proof.
  revert o. induction n as [|n IH]; intros o Ho; simpl; [constructor|].
  unfold sleep. keeps.
Qed.
#[local] Hint Resolve Keeps_wait_for_device : keeps.

Lemma Keeps_ensureConnected o : tables_ok o -> Keeps tables_ok ensureConnected o.
Proof. intros Ho. unfold ensureConnected. keeps. Qed.
#[local] Hint Resolve Keeps_ensureConnected : keeps.

Lemma Keeps_vibrate (i : Z) (x : Q) (motor : option Z) o :
  tables_ok o -> Keeps tables_ok (vibrate i x motor) o.
Proof. intros Ho. unfold vibrate. keeps. Qed.
#[local] Hint Resolve Keeps_vibrate : keeps.

Lemma Keeps_stop (i : Z) o : tables_ok o -> Keeps tables_ok (stop i) o.
Proof. intros Ho. unfold stop. keeps. Qed.
#[local] Hint Resolve Keeps_stop : keeps.

Lemma Keeps_stopAll o : tables_ok o -> Keeps tables_ok stopAll o.
Proof. intros Ho. unfold stopAll. keeps. Qed.
#[local] Hint Resolve Keeps_stopAll : keeps.

Lemma Keeps_getBattery (i : Z) o : tables_ok o -> Keeps tables_ok (getBattery i) o.
Proof. intros Ho. unfold getBattery. keeps. Qed.
#[local] Hint Resolve Keeps_getBattery : keeps.

Lemma Keeps_setState (a : bool) (d : option Z) (s : option Q) o :
  tables_ok o -> Keeps tables_ok (setState a d s) o.
Proof. intros Ho. unfold setState. keeps. Qed.
#[local] Hint Resolve Keeps_setState : keeps.

Lemma Keeps_onSessionStateMessage (m : ServerMessage) o :
  tables_ok o -> Keeps tables_ok (onSessionStateMessage m) o.
Proof. intros Ho. unfold onSessionStateMessage. keeps. Qed.
#[local] Hint Resolve Keeps_onSessionStateMessage : keeps.

Lemma Keeps_body (c : Call) o : tables_ok o -> Keeps tables_ok (body c) o.
Proof. intros Ho. destruct c; cbn [body]; unfold start, toggle, restore; keeps. Qed.
#[local] Hint Resolve Keeps_body : keeps.

Lemma Keeps_task (c : Call) (result : promise) o : tables_ok o -> Keeps tables_ok (task c result) o.
Proof. intros Ho. unfold task. keeps. Qed.

Lemma Keeps_on_callback (cb : Callback) o : tables_ok o -> Keeps tables_ok (on_callback cb) o.
Proof. intros Ho. destruct cb; cbn; [apply Keeps_ontimeout; exact Ho|repeat constructor]. Qed.

Lemma wake_keeps (ps : list promise) (r : Runtime) w q :
  Forall (fun pk => forall out o, tables_ok o -> Keeps tables_ok (pk.2 out) o) w ->
  Forall (fun t => forall o, tables_ok o -> Keeps tables_ok t o) q ->
  Forall (fun pk => forall out o, tables_ok o -> Keeps tables_ok (pk.2 out) o)
    (wake ps r w q).1 /\
  Forall (fun t => forall o, tables_ok o -> Keeps tables_ok t o) (wake ps r w q).2.
Proof.
  revert w q. induction ps as [|p ps IH]; intros w q Hw Hq; simpl; [auto|].
  destruct (state_of r p) as [out|]; [|auto].
  apply IH.
  - unfold still_waiting. apply Forall_filter_keep. assumption.
  - apply Forall_app. split; [assumption|].
    unfold reactions. induction Hw as [|[p' k] w Hk Hw IHw]; simpl; [constructor|].
    cbn in *. destruct (Nat.eqb p' p); [constructor|]; auto.
Qed.

Lemma run_task_keeps (t : Async unit) (l : Loop) :
  (forall o, tables_ok o -> Keeps tables_ok t o) -> tables_inv l -> tables_inv (run_task t l).
Proof.
  intros Ht (Hi & Hw & Hq). unfold run_task.
  destruct (Keeps_exec tables_ok t (rt l) (Ht _ Hi) Hi) as [Hi' Hk].
  destruct (exec t (rt l)) as [st r]. cbn in Hi', Hk.
  destruct (wake_keeps (settled r) r (waiting l) (ready l) Hw Hq) as [Hw' Hq'].
  destruct (wake (settled r) r (waiting l) (ready l)) as [w q]. cbn in Hw', Hq'.
  destruct st as [[]|e|p k]; try (split; [exact Hi'|split; assumption]).
  destruct (state_of _ p) as [out|]; (split; [exact Hi'|split]); cbn; auto.
  - apply Forall_app. split; [assumption|]. constructor; [|constructor].
    intros o Ho. eapply Hk; [reflexivity|exact Ho].
  - apply Forall_app. split; [assumption|]. constructor; [|constructor]. cbn.
    intros out o Ho. eapply Hk; [reflexivity|exact Ho].
Qed.

Lemma with_rt_keeps (f : Runtime -> Runtime) (l : Loop) :
  (forall r, this (f r) = this r) -> tables_inv l -> tables_inv (with_rt (f (rt l)) l).
Proof. intros Hf (Hi & Hw & Hq). split; [cbn; rewrite Hf; exact Hi|split; assumption]. Qed.

Lemma step_keeps (ev : Event) (l l' : Loop) :
  tables_inv l -> step ev l = Some l' -> tables_inv l'.
Proof.
  intros Hl. pose proof Hl as (Hi & Hw & Hq). unfold step.
  destruct ev, (ready l) as [|task0 rest] eqn:Er; try discriminate.
  - intros [= <-]. apply run_task_keeps; [intros; apply Keeps_task; assumption|].
    apply (with_rt_keeps (fun r => with_promises (promises r ++ [None]) (settled r) r)); auto.
  - destruct (sockets (rt l) !! s) as [sk|]; [|discriminate]. cbn [mbind option_bind].
    destruct (readyState sk); try discriminate. intros [= <-].
    destruct (listeners sk) as [[t p]|];
      [apply run_task_keeps; [intros; apply Keeps_onopen; assumption|]|];
      apply (with_rt_keeps (fun r => with_sockets _ r)); auto.
  - destruct (sockets (rt l) !! s) as [sk|]; [|discriminate]. cbn [mbind option_bind].
    destruct (readyState sk); try discriminate; intros [= <-];
    (destruct (listeners sk) as [[t p]|];
     [apply run_task_keeps; [intros; apply Keeps_handleMessage; assumption|]|];
     assumption).
  - destruct (sockets (rt l) !! s) as [sk|]; [|discriminate]. cbn [mbind option_bind].
    destruct (gone sk); [discriminate|]. intros [= <-].
    destruct (listeners sk) as [[t p]|];
      [apply run_task_keeps; [intros; apply Keeps_onerror; assumption|]|];
      apply (with_rt_keeps (fun r => with_sockets _ r)); auto.
  - destruct (sockets (rt l) !! s) as [sk|]; [|discriminate]. cbn [mbind option_bind].
    destruct (gone sk); [discriminate|]. intros [= <-].
    destruct (listeners sk) as [[t p]|];
      [apply run_task_keeps; [intros; apply Keeps_onclose; assumption|]|];
      apply (with_rt_keeps (fun r => with_sockets _ r)); auto.
  - intros [= <-]. apply (with_rt_keeps (fun r => with_clock _ r)); auto.
  - destruct (timers (rt l) !! t) as [tm|]; [|discriminate]. cbn [mbind option_bind].
    destruct (armed tm && (due tm <=? clock (rt l))%N); [|discriminate]. intros [= <-].
    apply run_task_keeps; [intros; apply Keeps_on_callback; assumption|].
    apply (with_rt_keeps (fun r => with_timers _ r)); auto.
  - intros [= <-]. inversion Hq; subst.
    apply run_task_keeps; [assumption|]. split; [exact Hi|split; [exact Hw|assumption]].
Qed.

Lemma reachable_tables (l : Loop) : reachable l -> tables_inv l.
Proof.
  induction 1 as [url ok|l ev l' _ IH Hs].
  - split; [|split; constructor]. unfold tables_ok. cbn.
    split; [lia|]. split; intros ? ? H; rewrite lookup_empty in H; discriminate H.
  - eapply step_keeps; eassumption.
Qed.



(** X19: in every reachable state each device of the registry is filed
    under its own [index]. *)
Theorem registry_is_keyed_by_index (l : Loop) :
  reachable l ->
  forall i d, devices (this (rt l)) !! i = Some d -> index d = i.
Proof. intros Hl. destruct (reachable_tables l Hl) as ((_ & _ & H) & _). exact H. Qed.

Lemma registry_is_keyed_by_index_witness :
  let l := after two_devices in
  reachable l /\
  devices (this (rt l)) !! 1 = Some spinner_device /\
  index spinner_device = 1.
Proof.
  intros l.
  assert (Hl : reachable l).
  { apply (run_reachable two_devices l0 l (reachable_boot _ _)). vm_compute. reflexivity. }
  assert (Hd : devices (this (rt l)) !! 1 = Some spinner_device) by (vm_compute; reflexivity).
  split; [exact Hl|]. split; [exact Hd|].
  exact (registry_is_keyed_by_index l Hl 1 spinner_device Hd).
Defined.

(** ** The counter and the URL *)

Section Moving.
Context (R : IntifaceState -> IntifaceState -> Prop).

Lemma Moves_bind {A B : Type} (m : Async A) (f : A -> Async B) (o : IntifaceState) :
  Moves R m o -> (forall a o', Moves R (f a) o') -> Moves R (bind m f) o.
Proof. intros Hm Hf. induction Hm; simpl; try constructor; auto. Qed.

Lemma Moves_try_catch {A : Type} (m : Async A) (h : Error -> Async A) (o : IntifaceState) :
  Moves R m o -> (forall e o', Moves R (h e) o') -> Moves R (try_catch m h) o.
Proof. intros Hm Hh. induction Hm; simpl; try constructor; auto. Qed.

Lemma Moves_for_of {A : Type} (l : list A) (body : A -> Async unit) (o : IntifaceState) :
  (forall x o', Moves R (body x) o') -> Moves R (for_of l body) o.
Proof.
  intros H. revert o. induction l as [|x l IH]; intros o; simpl; [constructor|].
  apply Moves_bind; auto.
Qed.

Lemma Moves_lift {A : Type} (x : Error + A) (o : IntifaceState) : Moves R (lift x) o.
Proof. destruct x; constructor. Qed.

Context (R_refl : forall o, R o o) (R_trans : forall a b c, R a b -> R b c -> R a c).

Lemma Moves_exec {A : Type} (m : Async A) (r : Runtime) :
  Moves R m (this r) ->
  R (this r) (this (exec m r).2) /\
  forall p k, (exec m r).1 = Blocked p k -> forall out o, Moves R (k out) o.
Proof.
  intros Hm. remember (this r) as o eqn:Eo. revert r Eo.
  induction Hm; intros r Eo; subst; simpl;
    try (split; [apply R_refl|congruence]);
    try (apply IHHm; reflexivity);
    try (apply H0; reflexivity).
  - destruct (IHHm (with_this f r) eq_refl) as [Hr Hk].
    split; [eapply R_trans; [exact H|exact Hr]|exact Hk].
  - apply IHHm. rewrite this_settle. reflexivity.
  - split; [apply R_refl|]. intros q k' [= -> ->]. assumption.
  - destruct (url_ok r url); apply H0; reflexivity.
Qed.

End Moving.

Lemma advances_refl (o : IntifaceState) : advances o o.
Proof. split; [lia|reflexivity]. Qed.

Lemma advances_trans (a b c : IntifaceState) : advances a b -> advances b c -> advances a c.
Proof. intros [H1 H2] [H3 H4]. split; [lia|congruence]. Qed.

(** Breaks a program into its operations. *)
Ltac moves :=
  repeat first
    [ solve [auto with moves nocore]
    | apply Moves_lift
    | match goal with
      | |- Moves _ (for_of _ _) _ => apply Moves_for_of; intros
      | |- Moves _ (try_catch _ _) _ => apply Moves_try_catch; [|intros]
      | |- Moves _ (Assign _ _) _ =>
          apply Moves_Assign; [split; cbn; (lia || reflexivity)|]
      | |- Moves _ (Await _ _) _ => apply Moves_Await; intros
      | |- Moves _ (match ?x with _ => _ end) _ => destruct x eqn:?
      | |- Moves _ (if ?x then _ else _) _ => destruct x eqn:?
      end
    | progress (unfold mbind, mret, Async_bind, Async_ret, read, assign, resolve, reject,
                console, delete_pending, new_promise, new_WebSocket, ready_state, ws_send,
                ws_close, listen, setTimeout, clearTimeout, date_now, await)
    | progress cbn [bind]
    | match goal with
      | |- Moves _ (bind _ _) _ => apply Moves_bind; [|intros]
      end
    | constructor; intros ].

Create HintDb moves.

Lemma Moves_send (msgType : string) (payload : list (string * JSON)) o :
  Moves advances (send msgType payload) o.
Proof. unfold send, nextId, isConnected. moves. Qed.
#[local] Hint Resolve Moves_send : moves.

Lemma Moves_handleMessage (data : text) o : Moves advances (handleMessage data) o.
Proof. unfold handleMessage, route. moves. Qed.

Lemma Moves_ontimeout (p : promise) o : Moves advances (ontimeout p) o.
Proof. unfold ontimeout. moves. Qed.

Lemma Moves_onopen (t : timer) (p : promise) o : Moves advances (onopen t p) o.
Proof. unfold onopen. moves. Qed.

Lemma Moves_onerror (t : timer) (p : promise) o : Moves advances (onerror t p) o.
Proof. unfold onerror. moves. Qed.

Lemma Moves_onclose o : Moves advances onclose o.
Proof. unfold onclose. moves. Qed.

Lemma Moves_connect o : Moves advances connect o.
Proof. unfold connect, connect_executor, isConnected. moves. Qed.
#[local] Hint Resolve Moves_connect : moves.

Lemma Moves_disconnect o : Moves advances disconnect o.
Proof. unfold disconnect. moves. Qed.
#[local] Hint Resolve Moves_disconnect : moves.

Lemma Moves_wait_for_device (n : nat) o : Moves advances (wait_for_device n) o.
Proof.
  revert o. induction n as [|n IH]; intros o; simpl; [constructor|].
  unfold sleep. moves.
Qed.
#[local] Hint Resolve Moves_wait_for_device : moves.

Lemma Moves_ensureConnected o : Moves advances ensureConnected o.
Proof. unfold ensureConnected, isConnected. moves. Qed.
#[local] Hint Resolve Moves_ensureConnected : moves.

Lemma Moves_vibrate (i : Z) (x : Q) (motor : option Z) o : Moves advances (vibrate i x motor) o.
Proof. unfold vibrate. moves. Qed.
#[local] Hint Resolve Moves_vibrate : moves.

Lemma Moves_stop (i : Z) o : Moves advances (stop i) o.
Proof. unfold stop. moves. Qed.
#[local] Hint Resolve Moves_stop : moves.

Lemma Moves_stopAll o : Moves advances stopAll o.
Proof. unfold stopAll, isConnected. moves. Qed.
#[local] Hint Resolve Moves_stopAll : moves.

Lemma Moves_getBattery (i : Z) o : Moves advances (getBattery i) o.
Proof. unfold getBattery. moves. Qed.
#[local] Hint Resolve Moves_getBattery : moves.

Lemma Moves_setState (a : bool) (d : option Z) (s : option Q) o :
  Moves advances (setState a d s) o.
Proof. unfold setState. moves. Qed.
#[local] Hint Resolve Moves_setState : moves.

Lemma Moves_onSessionStateMessage (m : ServerMessage) o :
  Moves advances (onSessionStateMessage m) o.
Proof. unfold onSessionStateMessage. moves. Qed.
#[local] Hint Resolve Moves_onSessionStateMessage : moves.

Lemma Moves_body (c : Call) o : Moves advances (body c) o.
Proof. destruct c; cbn [body]; unfold start, toggle, restore; moves. Qed.
#[local] Hint Resolve Moves_body : moves.

Lemma Moves_task (c : Call) (result : promise) o : Moves advances (task c result) o.
Proof. unfold task. moves. Qed.

Lemma Moves_on_callback (cb : Callback) o : Moves advances (on_callback cb) o.
Proof. destruct cb; cbn; [apply Moves_ontimeout|repeat constructor]. Qed.

Lemma wake_moves (ps : list promise) (r : Runtime) w q :
  Forall (fun pk => forall out o, Moves advances (pk.2 out) o) w ->
  Forall (fun t => forall o, Moves advances t o) q ->
  Forall (fun pk => forall out o, Moves advances (pk.2 out) o) (wake ps r w q).1 /\
  Forall (fun t => forall o, Moves advances t o) (wake ps r w q).2.
Proof.
  revert w q. induction ps as [|p ps IH]; intros w q Hw Hq; simpl; [auto|].
  destruct (state_of r p) as [out|]; [|auto].
  apply IH.
  - unfold still_waiting. apply Forall_filter_keep. assumption.
  - apply Forall_app. split; [assumption|].
    unfold reactions. induction Hw as [|[p' k] w Hk Hw IHw]; simpl; [constructor|].
    cbn in *. destruct (Nat.eqb p' p); [constructor|]; auto.
Qed.

Lemma run_task_moves (t : Async unit) (l : Loop) :
  (forall o, Moves advances t o) -> moves_inv l ->
  moves_inv (run_task t l) /\ advances (this (rt l)) (this (rt (run_task t l))).
Proof.
  intros Ht (Hw & Hq). rewrite run_task_this. unfold run_task.
  destruct (Moves_exec advances advances_refl advances_trans t (rt l) (Ht _)) as [Hi Hk].
  destruct (exec t (rt l)) as [st r]. cbn in Hi, Hk.
  destruct (wake_moves (settled r) r (waiting l) (ready l) Hw Hq) as [Hw' Hq'].
  destruct (wake (settled r) r (waiting l) (ready l)) as [w q]. cbn in Hw', Hq'.
  split; [|exact Hi].
  destruct st as [[]|e|p k]; try (split; assumption).
  destruct (state_of _ p) as [out|]; split; cbn; auto.
  - apply Forall_app. split; [assumption|]. constructor; [|constructor].
    intros o. eapply Hk. reflexivity.
  - apply Forall_app. split; [assumption|]. constructor; [|constructor]. cbn.
    intros out o. eapply Hk. reflexivity.
Qed.

Lemma step_moves (ev : Event) (l l' : Loop) :
  moves_inv l -> step ev l = Some l' ->
  moves_inv l' /\ advances (this (rt l)) (this (rt l')).
Proof.
  intros Hl. pose proof Hl as (Hw & Hq). unfold step.
  destruct ev, (ready l) as [|task0 rest] eqn:Er; try discriminate.
  - intros [= <-].
    apply (run_task_moves _ (with_rt (with_promises _ _ (rt l)) l)); [apply Moves_task|exact Hl].
  - destruct (sockets (rt l) !! s) as [sk|]; [|discriminate]. cbn [mbind option_bind].
    destruct (readyState sk); try discriminate. intros [= <-].
    destruct (listeners sk) as [[t p]|].
    + apply (run_task_moves _ (update_socket s _ l)); [apply Moves_onopen|exact Hl].
    + split; [exact Hl|apply advances_refl].
  - destruct (sockets (rt l) !! s) as [sk|]; [|discriminate]. cbn [mbind option_bind].
    destruct (readyState sk); try discriminate; intros [= <-];
      (destruct (listeners sk) as [[t p]|];
       [apply run_task_moves; [apply Moves_handleMessage|exact Hl]
       |split; [exact Hl|apply advances_refl]]).
  - destruct (sockets (rt l) !! s) as [sk|]; [|discriminate]. cbn [mbind option_bind].
    destruct (gone sk); [discriminate|]. intros [= <-].
    destruct (listeners sk) as [[t p]|].
    + apply (run_task_moves _ (update_socket s _ l)); [apply Moves_onerror|exact Hl].
    + split; [exact Hl|apply advances_refl].
  - destruct (sockets (rt l) !! s) as [sk|]; [|discriminate]. cbn [mbind option_bind].
    destruct (gone sk); [discriminate|]. intros [= <-].
    destruct (listeners sk) as [[t p]|].
    + apply (run_task_moves _ (update_socket s _ l)); [apply Moves_onclose|exact Hl].
    + split; [exact Hl|apply advances_refl].
  - intros [= <-]. split; [exact Hl|apply advances_refl].
  - destruct (timers (rt l) !! t) as [tm|]; [|discriminate]. cbn [mbind option_bind].
    destruct (armed tm && (due tm <=? clock (rt l))%N); [|discriminate]. intros [= <-].
    apply (run_task_moves _ (with_rt (with_timers _ (rt l)) l));
      [apply Moves_on_callback|exact Hl].
  - intros [= <-]. inversion Hq; subst.
    apply (run_task_moves task0 {| rt := rt l; waiting := waiting l; ready := rest |});
      [assumption|split; assumption].
Qed.

Lemma reachable_moves (l : Loop) : reachable l -> moves_inv l.
Proof.
  induction 1 as [url ok|l ev l' _ IH Hs].
  - split; constructor.
  - eapply step_moves; eassumption.
Qed.

Lemma turns_moves (l l' : Loop) :
  moves_inv l -> turns l l' -> moves_inv l' /\ advances (this (rt l)) (this (rt l')).
Proof.
  intros Hl. induction 1 as [|l1 ev l2 _ [IH1 IH2] Hs].
  - split; [exact Hl|apply advances_refl].
  - destruct (step_moves ev l1 l2 IH1 Hs) as [H1 H2].
    split; [exact H1|eapply advances_trans; eassumption].
Qed.

Lemma turns_reachable (l l' : Loop) : reachable l -> turns l l' -> reachable l'.
Proof.
  intros Hl. induction 1 as [|l1 ev l2 _ IH Hs]; [exact Hl|].
  eapply reachable_step; eassumption.
Qed.

Lemma drain_turns (fuel : nat) (l : Loop) : turns l (drain fuel l).
Proof.
  assert (H : forall l1, turns l l1 -> turns l (drain fuel l1)).
  { induction fuel as [|fuel IH]; intros l1 H1; cbn [drain]; [exact H1|].
    destruct (step Microtask l1) as [l2|] eqn:E; [|exact H1].
    apply IH. eapply turns_step; eassumption. }
  apply H. apply turns_refl.
Qed.

Lemma turns_trans (l l1 l2 : Loop) : turns l l1 -> turns l1 l2 -> turns l l2.
Proof.
  intros H1. induction 1 as [|l3 ev l4 _ IH Hs]; [exact H1|].
  eapply turns_step; eassumption.
Qed.

Lemma run_turns (evs : list Event) (l l' : Loop) : run evs l = Some l' -> turns l l'.
Proof.
  revert l. induction evs as [|ev evs IH]; intros l; cbn [run].
  - intros [= <-]. apply turns_refl.
  - unfold deliver. destruct (step ev l) as [l1|] eqn:E; [|discriminate].
    cbn [mbind option_bind]. intros H.
    eapply turns_trans; [|apply IH; exact H].
    eapply turns_trans; [|apply drain_turns].
    eapply turns_step; [apply turns_refl|exact E].
Qed.



(** X21: no call and no event changes the URL: every state of a client has
    the URL its constructor was given. *)
Theorem the_url_never_changes (url : string) (ok : string -> bool) (l : Loop) :
  turns (boot url ok) l -> wsUrl (this (rt l)) = Some url.
Proof.
  intros Ht.
  destruct (turns_moves _ l (reachable_moves _ (reachable_boot url ok)) Ht) as [_ [_ Hu]].
  exact Hu.
Qed.

Lemma the_url_never_changes_witness :
  let l := after handshake in
  turns (boot url0 (fun _ => true)) l /\ wsUrl (this (rt l)) = Some url0.
Proof.
  intros l.
  assert (Ht : turns (boot url0 (fun _ => true)) l).
  { apply (run_turns handshake). vm_compute. reflexivity. }
  split; [exact Ht|]. exact (the_url_never_changes url0 (fun _ => true) l Ht).
Defined.

(** ** Toggling *)

(** X22: [toggle] flips [active] and stores the device and the strength it
    was given before it awaits anything: turning on stamps [since] with the
    current time, turning off clears it; a second [toggle] gives [active] its
    first value back. *)
Theorem toggle_flips_active (r : Runtime) (d : option Z) (s : option Q) :
  let r' := (exec (toggle d s) r).2 in
  active (this r') = negb (active (this r)) /\
  device (this r') = default 0 d /\
  strength (this r') = default DEFAULT_STRENGTH s /\
  since (this r') = (if active (this r) then None else Some (clock r)) /\
  active (this (exec (toggle d s) r').2) = active (this r).
Proof.
  assert (H : forall r0,
            presence (this (exec (toggle d s) r0).2) =
            (negb (active (this r0)), default 0 d, default DEFAULT_STRENGTH s,
             if active (this r0) then None else Some (clock r0))).
  { intros r0. unfold toggle, mbind, Async_bind, read. cbn [bind exec].
    rewrite setState_presence. cbn [default]. destruct (active (this r0)); reflexivity. }
  intros r'.
  pose proof (f_equal (fun x => x.1.1.1) (H r)) as Ha.
  pose proof (f_equal (fun x => x.1.1.2) (H r)) as Hd.
  pose proof (f_equal (fun x => x.1.2) (H r)) as Hs.
  pose proof (f_equal (fun x => x.2) (H r)) as Ht.
  pose proof (f_equal (fun x => x.1.1.1) (H r')) as Ha'.
  unfold presence in Ha, Hd, Hs, Ht, Ha'. cbn [fst snd] in Ha, Hd, Hs, Ht, Ha'.
  fold r' in Ha, Hd, Hs, Ht.
  split; [exact Ha|]. split; [exact Hd|]. split; [exact Hs|]. split; [exact Ht|].
  rewrite Ha', Ha. apply negb_involutive.
Qed.
